(** * Chunking strategies of [01-why-ai-forgets]

    A shallow embedding of [naive_chunking_problems.py] and [quick_fixes.py]:
    the four text splitters ([NaiveChunker], [OverlapChunker],
    [SentenceAwareChunker], [ParagraphAwareChunker]) and the diagnostic
    [ChunkAnalyzer], followed by the properties established about them. *)

From Stdlib Require Import String Ascii ZArith NArith Bool Lia List Sorted.
Import ListNotations.
Open Scope Z_scope.

(** ** Python strings

    A Python [str] is a sequence of Unicode code points; [len] counts code
    points.  Python integers are unbounded, hence [Z]. *)

Definition char := N.
Definition str := list char.

(** An ASCII literal as a [str]. *)
Definition py (s : string) : str := map N_of_ascii (list_ascii_of_string s).
Arguments py s%_string.

Definition len {A : Type} (l : list A) : Z := Z.of_nat (length l).

(** The separator "\n\n". *)
Definition blank_line : str := [10%N; 10%N].

(** Truth value of a string: non-empty. *)
Definition truthy (s : str) : bool :=
  match s with [] => false | _ :: _ => true end.

(** Whitespace as [str.strip()] and the regular expression class [\s] on
    [str] patterns see it (both test [Py_UNICODE_ISSPACE]). *)
Definition isspace (c : char) : bool :=
  (((9 <=? c) && (c <=? 13)) || ((28 <=? c) && (c <=? 32))
   || (c =? 133) || (c =? 160) || (c =? 5760)
   || ((8192 <=? c) && (c <=? 8202))
   || (c =? 8232) || (c =? 8233) || (c =? 8239) || (c =? 8287)
   || (c =? 12288))%N.

Fixpoint lstrip (s : str) : str :=
  match s with
  | [] => []
  | c :: r => if isspace c then lstrip r else s
  end.

Definition rstrip (s : str) : str := rev (lstrip (rev s)).

Definition strip (s : str) : str := rstrip (lstrip s).

(** [s.startswith(p)] and [s.endswith(p)], for one affix and for a tuple. *)
Fixpoint startswith (s p : str) : bool :=
  match p, s with
  | [], _ => true
  | x :: p', y :: s' => N.eqb x y && startswith s' p'
  | _ :: _, [] => false
  end.

Definition endswith (s p : str) : bool := startswith (rev s) (rev p).

Definition startswith_any (s : str) (ps : list str) : bool :=
  existsb (startswith s) ps.

Definition endswith_any (s : str) (ps : list str) : bool :=
  existsb (endswith s) ps.

(** [s.find(sub)]: the first index where [sub] occurs, or -1. *)
Fixpoint find_from (i : Z) (s sub : str) : Z :=
  if startswith s sub then i
  else match s with
       | [] => -1
       | _ :: r => find_from (i + 1) r sub
       end.

Definition find (s sub : str) : Z := find_from 0 s sub.

(** [sub in s]. *)
Definition contains (s sub : str) : bool := negb (find s sub =? -1).

(** Slices [s[i:j]] with Python's treatment of negative and out-of-range
    bounds: a negative bound counts from the end, and both are clamped to
    [0 .. len s]. *)
Definition slice_bound (n i : Z) : Z :=
  if i <? 0 then Z.max 0 (i + n) else Z.min i n.

Definition slice {A : Type} (s : list A) (i j : Z) : list A :=
  let a := slice_bound (len s) i in
  let b := slice_bound (len s) j in
  firstn (Z.to_nat (b - a)) (skipn (Z.to_nat a) s).

(** [l[i]]; the callers below only index inside the list, the default stands
    for the IndexError they never meet. *)
Definition getitem (l : list str) (i : Z) : str :=
  let k := if i <? 0 then i + len l else i in
  if k <? 0 then [] else nth (Z.to_nat k) l [].

Definition enumerate {A : Type} (l : list A) : list (Z * A) :=
  combine (map Z.of_nat (seq 0 (length l))) l.

(** ** Exceptions and [range] *)

Inductive exn := ValueError.

Inductive result (A : Type) :=
| Ok (a : A)
| Raise (e : exn).
Arguments Ok {A} a.
Arguments Raise {A} e.

(** Number of elements of [range(start, stop, step)] for a non-zero step. *)
Definition range_len (start stop step : Z) : Z :=
  if 0 <? step then
    if start <? stop then (stop - start - 1) / step + 1 else 0
  else
    if stop <? start then (start - stop - 1) / (- step) + 1 else 0.

(** [range(start, stop, step)]; a zero step raises ValueError. *)
Definition range (start stop step : Z) : result (list Z) :=
  if step =? 0 then Raise ValueError
  else Ok (map (fun k => start + Z.of_nat k * step)
               (seq 0 (Z.to_nat (range_len start stop step)))).

(** ** [re.split]

    Both patterns used by the splitters match non-empty runs only and look
    behind at most one character, so a pattern is given by the length of its
    match at a position (0 when it does not match there), from the character
    before the position and the text from the position on.  [re_split] scans
    left to right, cuts the text at every match and drops the matched run. *)
Definition matcher := option char -> str -> nat.

Fixpoint re_split_aux (m : matcher) (prev : option char) (piece : str)
         (skip : nat) (text : str) : list str :=
  match text with
  | [] => [rev piece]
  | c :: rest =>
      match skip with
      | S k => re_split_aux m (Some c) piece k rest
      | O =>
          match m prev text with
          | O => re_split_aux m (Some c) (c :: piece) O rest
          | S k => rev piece :: re_split_aux m (Some c) [] k rest
          end
      end
  end.

Definition re_split (m : matcher) (text : str) : list str :=
  re_split_aux m None [] O text.

(** Length of the longest prefix whose characters all satisfy [p]. *)
Fixpoint run_length (p : char -> bool) (s : str) : nat :=
  match s with
  | [] => O
  | c :: r => if p c then S (run_length p r) else O
  end.

(** Code points of '.', '!' and '?'. *)
Definition is_terminal (c : char) : bool :=
  ((c =? 46) || (c =? 33) || (c =? 63))%N.

(** The pattern [(?<=[.!?])\s+]. *)
Definition sentence_boundary : matcher :=
  fun prev text =>
    match prev with
    | Some p => if is_terminal p then run_length isspace text else O
    | None => O
    end.

(** The pattern [\n\n+]. *)
Definition paragraph_break : matcher :=
  fun _ text =>
    let n := run_length (fun c => (c =? 10)%N) text in
    if (2 <=? n)%nat then n else O.

(** ** [NaiveChunker] *)
Module NaiveChunker.

Record t := { chunk_size : Z }.

Definition init (chunk_size : option Z) : t :=
  {| chunk_size := match chunk_size with Some n => n | None => 1000 end |}.

Definition chunk (self : t) (text : str) : result (list str) :=
  match range 0 (len text) (chunk_size self) with
  | Raise e => Raise e
  | Ok starts => Ok (map (fun i => slice text i (i + chunk_size self)) starts)
  end.

End NaiveChunker.

(** ** [OverlapChunker]

    The [while] loop need not terminate for every configuration, so the loop
    takes fuel: one unit per evaluation of the loop condition, [None] when it
    runs out. *)
Module OverlapChunker.

Record t := { chunk_size : Z; overlap : Z }.

Definition init (chunk_size overlap : option Z) : t :=
  {| chunk_size := match chunk_size with Some n => n | None => 1000 end;
     overlap := match overlap with Some n => n | None => 100 end |}.

Fixpoint chunk_loop (fuel : nat) (self : t) (text : str) (start : Z)
         (chunks : list str) : option (list str) :=
  match fuel with
  | O => None
  | S fuel' =>
      if start <? len text then
        let end_ := Z.min (start + chunk_size self) (len text) in
        let chunks := chunks ++ [slice text start end_] in
        let start := end_ - overlap self in
        if end_ =? len text then Some chunks
        else chunk_loop fuel' self text start chunks
      else Some chunks
  end.

Definition chunk (self : t) (fuel : nat) (text : str) : option (list str) :=
  chunk_loop fuel self text 0 [].

End OverlapChunker.

(** ** [SentenceAwareChunker] *)
Module SentenceAwareChunker.

Record t := { target_size : Z; max_size : Z }.

Definition init (target_size max_size : option Z) : t :=
  {| target_size := match target_size with Some n => n | None => 1000 end;
     max_size := match max_size with Some n => n | None => 1200 end |}.

(** One iteration of [for sentence in sentences], on the pair
    [(chunks, current_chunk)]. *)
Definition step (self : t) (st : list str * str) (sentence : str)
  : list str * str :=
  let '(chunks, current_chunk) := st in
  if (len current_chunk + len sentence >? max_size self)
     && truthy current_chunk then
    (chunks ++ [strip current_chunk], sentence)
  else if len current_chunk + len sentence <=? target_size self then
    (chunks,
     if truthy current_chunk then current_chunk ++ py " " ++ sentence
     else sentence)
  else if len current_chunk + len sentence <=? max_size self then
    (chunks, current_chunk ++ py " " ++ sentence)
  else
    ((if truthy current_chunk then chunks ++ [strip current_chunk]
      else chunks),
     sentence).

Definition chunk (self : t) (text : str) : list str :=
  let sentences := re_split sentence_boundary text in
  let '(chunks, current_chunk) := fold_left (step self) sentences ([], []) in
  if truthy current_chunk then chunks ++ [strip current_chunk] else chunks.

End SentenceAwareChunker.

(** ** [ParagraphAwareChunker] *)
Module ParagraphAwareChunker.

Record t := { target_size : Z }.

Definition init (target_size : option Z) : t :=
  {| target_size := match target_size with Some n => n | None => 1000 end |}.

(** One iteration of [for pc in para_chunks]. *)
Definition merge (self : t) (st : list str * str) (pc : str)
  : list str * str :=
  let '(chunks, current_chunk) := st in
  if len current_chunk + len pc <=? target_size self then
    (chunks,
     if truthy current_chunk then current_chunk ++ blank_line ++ pc
     else pc)
  else
    ((if truthy current_chunk then chunks ++ [current_chunk] else chunks),
     pc).

(** One iteration of [for paragraph in paragraphs]. *)
Definition step (self : t) (st : list str * str) (paragraph : str)
  : list str * str :=
  let paragraph := strip paragraph in
  if negb (truthy paragraph) then st
  else
    let '(chunks, current_chunk) := st in
    if len paragraph >? target_size self then
      let sentence_chunker :=
        SentenceAwareChunker.init (Some (target_size self)) None in
      let para_chunks :=
        SentenceAwareChunker.chunk sentence_chunker paragraph in
      fold_left (merge self) para_chunks (chunks, current_chunk)
    else if len current_chunk + len paragraph <=? target_size self then
      (chunks,
       if truthy current_chunk
       then current_chunk ++ blank_line ++ paragraph
       else paragraph)
    else
      ((if truthy current_chunk then chunks ++ [current_chunk] else chunks),
       paragraph).

Definition chunk (self : t) (text : str) : list str :=
  let paragraphs := re_split paragraph_break text in
  let '(chunks, current_chunk) := fold_left (step self) paragraphs ([], []) in
  if truthy current_chunk then chunks ++ [current_chunk] else chunks.

End ParagraphAwareChunker.

(** ** [ChunkAnalyzer]

    [str.lower()] follows the Unicode case tables, which are not part of the
    program; the analyzer is parameterised by it. *)
Record ChunkProblem := {
  chunk_index : Z;
  problem_type : str;
  description : str;
  example : str
}.

Module ChunkAnalyzer.

Record t := { sentence_endings : list str; reference_phrases : list str }.

Definition init : t :=
  {| sentence_endings := [py "."; py "!"; py "?"];
     reference_phrases :=
       [py "as mentioned above"; py "see table"; py "following the previous";
        py "as described earlier"; py "refer to section"] |}.

(** The tuple of list markers tested by [startswith]; the third one is the
    bullet U+2022 followed by a space. *)
Definition list_markers : list str :=
  [py "- "; py "* "; [8226%N; 32%N]; py "1. "; py "2. "; py "3. "].

Section Analyzer.

Variable lower : str -> str.

Definition _extract_context (text phrase : str) (context_size : Z) : str :=
  let idx := find (lower text) phrase in
  if idx =? -1 then []
  else
    let start := Z.max 0 (idx - context_size) in
    let end_ := Z.min (len text) (idx + len phrase + context_size) in
    py "..." ++ slice text start end_ ++ py "...".

(** The body of [for i, chunk in enumerate(chunks)]: the problems it appends,
    in order. *)
Definition analyze_chunk (self : t) (chunks : list str) (i : Z) (chunk : str)
  : list ChunkProblem :=
  (if (i >? 0)
      && negb (endswith_any (rstrip (getitem chunks (i - 1)))
                            (sentence_endings self))
   then [ {| chunk_index := i;
             problem_type := py "Semantic Break";
             description := py "Chunk starts mid-sentence";
             example := slice chunk 0 50 ++ py "..." |} ]
   else [])
  ++ flat_map
       (fun phrase =>
          if contains (lower chunk) phrase
          then [ {| chunk_index := i;
                    problem_type := py "Reference Loss";
                    description :=
                      py "Contains reference '" ++ phrase
                      ++ py "' but context may be in different chunk";
                    example := _extract_context chunk phrase 30 |} ]
          else [])
       (reference_phrases self)
  ++ (if startswith_any (strip chunk) list_markers
      then
        if (i =? 0) || negb (endswith (rstrip (getitem chunks (i - 1))) (py ":"))
        then [ {| chunk_index := i;
                  problem_type := py "Structural Destruction";
                  description := py "List item separated from header";
                  example := slice chunk 0 50 ++ py "..." |} ]
        else []
      else []).

Definition analyze_chunks (self : t) (chunks : list str) : list ChunkProblem :=
  flat_map (fun ic => analyze_chunk self chunks (fst ic) (snd ic))
           (enumerate chunks).

End Analyzer.

End ChunkAnalyzer.

(** ASCII lower-casing, the restriction of [str.lower()] to code points
    below 128. *)
Definition ascii_lower (s : str) : str :=
  map (fun c => if ((65 <=? c) && (c <=? 90))%N then (c + 32)%N else c) s.

Definition is_ascii (s : str) : Prop := Forall (fun c => (c < 128)%N) s.

(** ** [MetadataPreservingChunker] *)

(** [s.find(sub, start)]: a negative [start] counts from the end, and a
    [start] beyond the end finds nothing. *)
Definition find_at (s sub : str) (start : Z) : Z :=
  let n := len s in
  let st := if start <? 0 then Z.max 0 (start + n) else start in
  if n <? st then -1 else find_from st (skipn (Z.to_nat st) s) sub.

(** [s.split()]: the maximal runs of non-whitespace characters. *)
Fixpoint split_ws_aux (word : str) (s : str) : list str :=
  match s with
  | [] => if truthy word then [rev word] else []
  | c :: r =>
      if isspace c then
        if truthy word then rev word :: split_ws_aux [] r
        else split_ws_aux [] r
      else split_ws_aux (c :: word) r
  end.

Definition split_ws (s : str) : list str := split_ws_aux [] s.

Definition is_hash (c : char) : bool := (c =? 35)%N.

Definition not_newline (c : char) : bool := negb (c =? 10)%N.

(** The pattern [\s+(.+)$] after the '#' characters of a header.  [\s+] is
    greedy: it first takes the whole run of whitespace, and gives characters
    back one at a time, down to one, until [(.+)] can start, which it can on
    any character but a newline; [(.+)] then runs to the end of the line,
    where [$] holds.  [j] is the number of characters tried for [\s+]; the
    result is that number and the title. *)
Fixpoint header_title (j : nat) (s : str) : option (nat * str) :=
  match j with
  | O => None
  | S j' =>
      match skipn j s with
      | c :: _ =>
          if not_newline c
          then Some (j, firstn (run_length not_newline (skipn j s)) (skipn j s))
          else header_title j' s
      | [] => header_title j' s
      end
  end.

(** The pattern [#+\s+(.+)$] at a line start: the length of the match and
    group 1. *)
Definition header_at (s : str) : option (nat * str) :=
  let n := run_length is_hash s in
  match n with
  | O => None
  | S _ =>
      match header_title (run_length isspace (skipn n s)) (skipn n s) with
      | Some (j, title) => Some ((n + j + length title)%nat, title)
      | None => None
      end
  end.

(** The character class [[-*â€¢]] of [list_pattern], as the source file
    spells it: '-', '*', U+00E2, U+20AC and U+00A2. *)
Definition list_marker_char (c : char) : bool :=
  ((c =? 45) || (c =? 42) || (c =? 226) || (c =? 8364) || (c =? 162))%N.

(** The pattern [[\s]*[-*â€¢]\s+] at a line start. *)
Definition list_item_at (s : str) : bool :=
  match skipn (run_length isspace s) s with
  | c :: d :: _ => list_marker_char c && isspace d
  | _ => false
  end.

(** [pattern.search(s)] for a pattern anchored by [^] under [re.MULTILINE]:
    some line start, the start of the string or the position after a
    newline, where the pattern matches. *)
Fixpoint search_line_starts (at_start : str -> bool) (line_start : bool)
         (s : str) : bool :=
  match s with
  | [] => line_start && at_start []
  | c :: rest =>
      (line_start && at_start s)
      || search_line_starts at_start (c =? 10)%N rest
  end.

(** The dictionaries of the section list and of the metadata, and the
    dataclass [ChunkWithMetadata]. *)
Module SectionDict.

Record t := {
  title : str;
  start : Z;
  level : Z
}.

End SectionDict.

Module Metadata.

Record t := {
  doc_title : str;
  section : str;
  subsection : str;
  chunk_index : Z;
  total_chunks : Z;
  has_list : bool;
  has_code : bool;
  word_count : Z
}.

End Metadata.

Module ChunkWithMetadata.

Record t := {
  content : str;
  metadata : Metadata.t;
  chunk_index : Z;
  overlap_with_previous : option str;
  overlap_with_next : option str
}.

End ChunkWithMetadata.

Module MetadataPreservingChunker.

Record t := { chunk_size : Z }.

Definition init (chunk_size : option Z) : t :=
  {| chunk_size := match chunk_size with Some n => n | None => 1000 end |}.

(** [for match in self.section_pattern.finditer(text)]: the scan is at
    offset [pos]; inside a match, [skip] characters of it are still to be
    passed.  The level is the length of the first word of the match. *)
Fixpoint find_sections (pos : Z) (line_start : bool) (skip : nat) (text : str)
  : list SectionDict.t :=
  match text with
  | [] => []
  | c :: rest =>
      match skip with
      | S k => find_sections (pos + 1) (c =? 10)%N k rest
      | O =>
          match (if line_start then header_at text else None) with
          | Some (n, group1) =>
              {| SectionDict.title := group1;
                 SectionDict.start := pos;
                 SectionDict.level := len (getitem (split_ws (firstn n text)) 0) |}
              :: find_sections (pos + 1) (c =? 10)%N (n - 1) rest
          | None => find_sections (pos + 1) (c =? 10)%N O rest
          end
      end
  end.

(** One iteration of [for section in sections], on the pair
    [(current_section, current_subsection)]. *)
Definition update_section (chunk_start : Z) (st : str * str) (section : SectionDict.t)
  : str * str :=
  if SectionDict.start section <=? chunk_start then
    if SectionDict.level section =? 1 then (SectionDict.title section, snd st)
    else if SectionDict.level section =? 2 then (fst st, SectionDict.title section)
    else st
  else st.

Definition list_pattern_search (chunk : str) : bool :=
  search_line_starts list_item_at true chunk.

(** [for i, chunk in enumerate(chunks)], on the state
    [(current_position, current_section, current_subsection)]; the entries
    are appended in order. *)
Fixpoint annotate (text doc_title : str) (sections : list SectionDict.t)
         (chunks : list str) (todo : list (Z * str)) (st : Z * (str * str))
  : list ChunkWithMetadata.t :=
  match todo with
  | [] => []
  | (i, chunk) :: todo' =>
      let '(current_position, names) := st in
      let chunk_start := find_at text chunk current_position in
      let current_position := chunk_start + len chunk in
      let names := fold_left (update_section chunk_start) sections names in
      let has_list := list_pattern_search chunk in
      let has_code :=
        contains chunk (py "```") || contains chunk (py "def ")
        || contains chunk (py "function ") in
      let metadata :=
        {| Metadata.doc_title := doc_title;
           Metadata.section := fst names;
           Metadata.subsection := snd names;
           Metadata.chunk_index := i;
           Metadata.total_chunks := len chunks;
           Metadata.has_list := has_list;
           Metadata.has_code := has_code;
           Metadata.word_count := len (split_ws chunk) |} in
      let overlap_prev :=
        if i >? 0
        then Some (slice (getitem chunks (i - 1)) (-50)
                         (len (getitem chunks (i - 1))))
        else None in
      let overlap_next :=
        if i <? len chunks - 1
        then Some (slice (getitem chunks (i + 1)) 0 50)
        else None in
      {| ChunkWithMetadata.content := chunk;
         ChunkWithMetadata.metadata := metadata;
         ChunkWithMetadata.chunk_index := i;
         ChunkWithMetadata.overlap_with_previous := overlap_prev;
         ChunkWithMetadata.overlap_with_next := overlap_next |}
      :: annotate text doc_title sections chunks todo' (current_position, names)
  end.

Definition chunk_with_metadata (self : t) (text doc_title : str)
  : list ChunkWithMetadata.t :=
  let sections := find_sections 0 true O text in
  let sentence_chunker := SentenceAwareChunker.init (Some (chunk_size self)) None in
  let chunks := SentenceAwareChunker.chunk sentence_chunker text in
  annotate text doc_title sections chunks (enumerate chunks) (0, ([], [])).

End MetadataPreservingChunker.

(** ** Notions used by the statements *)

(** The text with every whitespace character deleted. *)
Definition remove_ws (s : str) : str := filter (fun c => negb (isspace c)) s.

(** The last [n] and the first [n] characters of a chunk. *)
Definition last_chars (n : Z) (s : str) : str :=
  skipn (length s - Z.to_nat n) s.

Definition first_chars (n : Z) (s : str) : str := firstn (Z.to_nat n) s.

(** Every pair of neighbouring chunks shares [n] characters. *)
Fixpoint adjacent_overlap (n : Z) (chunks : list str) : Prop :=
  match chunks with
  | c1 :: ((c2 :: _) as rest) =>
      n <= len c1 /\ n <= len c2 /\ last_chars n c1 = first_chars n c2
      /\ adjacent_overlap n rest
  | _ => True
  end.

(** The paragraph splitter as the specification words it: trimmed, non-empty
    paragraphs are placed one after the other by a single fit-or-flush rule;
    a paragraph longer than the target is first cut by the sentence splitter
    with target size [target] and hard maximum [fallback_max], and its
    sentence-chunks are placed by the same rule. *)
Definition fit_or_flush (target : Z) (st : list str * str) (unit : str)
  : list str * str :=
  if len (snd st) + len unit <=? target then
    (fst st, if truthy (snd st) then snd st ++ blank_line ++ unit else unit)
  else
    ((if truthy (snd st) then fst st ++ [snd st] else fst st), unit).

Definition place_paragraph (fallback_max target : Z) (st : list str * str)
           (p : str) : list str * str :=
  if len p >? target then
    fold_left (fit_or_flush target)
      (SentenceAwareChunker.chunk
         {| SentenceAwareChunker.target_size := target;
            SentenceAwareChunker.max_size := fallback_max |} p)
      st
  else fit_or_flush target st p.

Definition ParagraphSplitter_spec (fallback_max target : Z) (text : str)
  : list str :=
  let paragraphs := filter truthy (map strip (re_split paragraph_break text)) in
  let st := fold_left (place_paragraph fallback_max target) paragraphs ([], []) in
  if truthy (snd st) then fst st ++ [snd st] else fst st.

(** ["\n\n".join(ps)]. *)
Definition join_blank (ps : list str) : str :=
  match ps with
  | [] => []
  | p :: rest => p ++ concat (map (fun q => blank_line ++ q) rest)
  end.

(** Non-empty, and neither the first nor the last character is whitespace. *)
Definition edged (s : str) : Prop :=
  match s with [] => False | c :: _ => isspace c = false end
  /\ match rev s with [] => False | c :: _ => isspace c = false end.

(** A chunk is trimmed when [strip] leaves it unchanged. *)
Definition trimmed (s : str) : Prop := strip s = s.

(** A pattern that only ever matches whitespace. *)
Definition ws_matcher (m : matcher) : Prop :=
  forall prev text, forallb isspace (firstn (m prev text) text) = true.

(** Loop states [(chunks, current_chunk)]: the non-whitespace content held
    so far, and whether anything is held at all. *)
Definition content (st : list str * str) : str :=
  remove_ws (concat (fst st)) ++ remove_ws (snd st).

Definition live (st : list str * str) : Prop := fst st <> [] \/ snd st <> [].

(** * Properties *)

(** ** Whitespace and trimming *)

Arguments remove_ws : simpl never.

Lemma remove_ws_nil : remove_ws [] = [].
Proof. reflexivity. Qed.

Lemma remove_ws_cons (c : char) (s : str) :
  remove_ws (c :: s) = if isspace c then remove_ws s else c :: remove_ws s.
Proof. unfold remove_ws. simpl. now destruct (isspace c). Qed.

Lemma remove_ws_app (a b : str) :
  remove_ws (a ++ b) = remove_ws a ++ remove_ws b.
Proof. apply filter_app. Qed.

Lemma remove_ws_rev (s : str) : remove_ws (rev s) = rev (remove_ws s).
Proof.
  induction s as [|c s IH]; simpl; [reflexivity|].
  rewrite remove_ws_app, IH, !remove_ws_cons, remove_ws_nil.
  destruct (isspace c); simpl; [apply app_nil_r | reflexivity].
Qed.

Lemma remove_ws_lstrip (s : str) : remove_ws (lstrip s) = remove_ws s.
Proof.
  induction s as [|c s IH]; simpl; [reflexivity|].
  destruct (isspace c) eqn:E; [|reflexivity].
  now rewrite IH, remove_ws_cons, E.
Qed.

Lemma remove_ws_strip (s : str) : remove_ws (strip s) = remove_ws s.
Proof.
  unfold strip, rstrip.
  now rewrite remove_ws_rev, remove_ws_lstrip, remove_ws_rev, rev_involutive,
    remove_ws_lstrip.
Qed.

Lemma remove_ws_all_space (s : str) :
  forallb isspace s = true -> remove_ws s = [].
Proof.
  induction s as [|c s IH]; simpl; [reflexivity|].
  intros H. apply andb_prop in H as [Hc Hs]. rewrite remove_ws_cons, Hc. auto.
Qed.

Lemma lstrip_app_keep (l r : str) (c : char) :
  isspace c = false -> lstrip (l ++ c :: r) = lstrip l ++ c :: r.
Proof.
  intros Hc. induction l as [|a l IH]; simpl.
  - now rewrite Hc.
  - destruct (isspace a); [exact IH | reflexivity].
Qed.

Lemma lstrip_head (s : str) :
  match lstrip s with [] => True | c :: _ => isspace c = false end.
Proof.
  induction s as [|c s IH]; simpl; [exact I|].
  destruct (isspace c) eqn:E; [exact IH | exact E].
Qed.

Lemma lstrip_fixed (s : str) :
  match s with [] => True | c :: _ => isspace c = false end -> lstrip s = s.
Proof. destruct s as [|c s]; simpl; [reflexivity|]. now intros ->. Qed.

Lemma lstrip_idem (s : str) : lstrip (lstrip s) = lstrip s.
Proof. apply lstrip_fixed, lstrip_head. Qed.

Lemma rstrip_head (s : str) :
  match s with [] => True | c :: _ => isspace c = false end ->
  match rstrip s with [] => True | c :: _ => isspace c = false end.
Proof.
  destruct s as [|c s]; [intros _; exact I|]. intros Hc.
  unfold rstrip. simpl rev. rewrite lstrip_app_keep by exact Hc.
  rewrite rev_app_distr. simpl. exact Hc.
Qed.

Lemma strip_idem (s : str) : strip (strip s) = strip s.
Proof.
  unfold strip at 1.
  rewrite (lstrip_fixed (strip s)).
  - unfold strip, rstrip. now rewrite rev_involutive, lstrip_idem.
  - apply rstrip_head, lstrip_head.
Qed.

(** A trimmed string neither starts nor ends with whitespace. *)
Lemma strip_ends (s : str) :
  match strip s with [] => True | c :: _ => isspace c = false end
  /\ match rev (strip s) with [] => True | c :: _ => isspace c = false end.
Proof.
  split.
  - apply rstrip_head, lstrip_head.
  - unfold strip, rstrip. rewrite rev_involutive. apply lstrip_head.
Qed.

Lemma lstrip_all_space (s : str) : forallb isspace s = true -> lstrip s = [].
Proof.
  induction s as [|c s IH]; simpl; [reflexivity|].
  intros H. apply andb_prop in H as [-> Hs]. auto.
Qed.

Lemma strip_all_space (s : str) : forallb isspace s = true -> strip s = [].
Proof. intros H. unfold strip. now rewrite lstrip_all_space. Qed.

(** ** [re.split] only drops what the pattern matches *)

Lemma run_length_forallb (p q : char -> bool) (s : str) :
  (forall c, p c = true -> q c = true) ->
  forallb q (firstn (run_length p s) s) = true.
Proof.
  intros Hpq. induction s as [|c s IH]; simpl; [reflexivity|].
  destruct (p c) eqn:E; simpl; [|reflexivity].
  now rewrite (Hpq c E).
Qed.

Lemma sentence_boundary_ws : ws_matcher sentence_boundary.
Proof.
  intros [p|] text; unfold sentence_boundary; [|reflexivity].
  destruct (is_terminal p); [|reflexivity].
  now apply run_length_forallb.
Qed.

Lemma paragraph_break_ws : ws_matcher paragraph_break.
Proof.
  intros prev text. unfold paragraph_break.
  destruct (2 <=? _)%nat; [|reflexivity].
  apply run_length_forallb. intros c Hc.
  apply N.eqb_eq in Hc. now subst c.
Qed.

Lemma re_split_aux_content (m : matcher) :
  ws_matcher m ->
  forall text prev piece skip,
    forallb isspace (firstn skip text) = true ->
    remove_ws (concat (re_split_aux m prev piece skip text))
    = remove_ws (rev piece) ++ remove_ws text.
Proof.
  intros Hm. induction text as [|c rest IH]; intros prev piece skip Hskip.
  - simpl. now rewrite remove_ws_nil, !app_nil_r.
  - rewrite (remove_ws_cons c rest). destruct skip as [|k].
    + simpl. destruct (m prev (c :: rest)) as [|k] eqn:E.
      * rewrite IH by reflexivity. simpl rev.
        rewrite remove_ws_app, <- app_assoc, remove_ws_cons, remove_ws_nil.
        now destruct (isspace c).
      * pose proof (Hm prev (c :: rest)) as H. rewrite E in H. simpl in H.
        apply andb_prop in H as [Hc Hk].
        simpl concat. rewrite remove_ws_app, IH by exact Hk.
        now rewrite Hc.
    + simpl in Hskip. apply andb_prop in Hskip as [Hc Hk].
      simpl. rewrite IH by exact Hk. now rewrite Hc.
Qed.

Lemma re_split_content (m : matcher) (text : str) :
  ws_matcher m -> remove_ws (concat (re_split m text)) = remove_ws text.
Proof.
  intros Hm. unfold re_split. now rewrite re_split_aux_content.
Qed.

Lemma re_split_aux_head (m : matcher) :
  forall text prev piece,
    piece <> [] ->
    exists p ps, re_split_aux m prev piece O text = p :: ps /\ p <> [].
Proof.
  induction text as [|c rest IH]; intros prev piece Hp; simpl.
  - exists (rev piece), []. split; [reflexivity|].
    intros H. apply Hp. apply (f_equal (@rev char)) in H.
    now rewrite rev_involutive in H.
  - destruct (m prev (c :: rest)).
    + apply IH. discriminate.
    + eexists _, _. split; [reflexivity|].
      intros H. apply Hp. apply (f_equal (@rev char)) in H.
      now rewrite rev_involutive in H.
Qed.

Lemma re_split_head (m : matcher) (text : str) :
  (forall s, m None s = O) -> text <> [] ->
  exists p ps, re_split m text = p :: ps /\ p <> [].
Proof.
  intros Hm Ht. destruct text as [|c rest]; [contradiction|].
  unfold re_split. simpl. rewrite Hm. apply re_split_aux_head. discriminate.
Qed.

Lemma re_split_aux_all_space (m : matcher) :
  forall text prev piece skip,
    forallb isspace text = true -> forallb isspace piece = true ->
    Forall (fun p => forallb isspace p = true)
           (re_split_aux m prev piece skip text).
Proof.
  induction text as [|c rest IH]; intros prev piece skip Ht Hp; simpl.
  - constructor; [|constructor].
    rewrite forallb_forall in *. intros x Hx. apply Hp. now apply in_rev.
  - simpl in Ht. apply andb_prop in Ht as [Hc Hr].
    destruct skip as [|k]; [|now apply IH].
    destruct (m prev (c :: rest)).
    + apply IH; [exact Hr|]. simpl. now rewrite Hc.
    + constructor; [|now apply IH].
      rewrite forallb_forall in *. intros x Hx. apply Hp. now apply in_rev.
Qed.

(** ** The sentence loop *)

Lemma remove_ws_snoc (chunks : list str) (c : str) :
  remove_ws (concat (chunks ++ [c])) = remove_ws (concat chunks) ++ remove_ws c.
Proof. rewrite concat_app, remove_ws_app. simpl. now rewrite app_nil_r. Qed.

Lemma sentence_step_content self st s :
  content (SentenceAwareChunker.step self st s) = content st ++ remove_ws s.
Proof.
  destruct st as [chunks cur]. unfold SentenceAwareChunker.step, content.
  destruct cur as [|c cur]; simpl truthy; rewrite ?andb_false_r, ?andb_true_r;
    repeat match goal with |- context [if ?b then _ else _] => destruct b end;
    cbn [fst snd];
    rewrite ?remove_ws_snoc, ?remove_ws_app, ?remove_ws_strip, ?app_nil_r,
      <- ?app_assoc; reflexivity.
Qed.

Lemma sentence_fold_content self ss :
  forall st,
    content (fold_left (SentenceAwareChunker.step self) ss st)
    = content st ++ remove_ws (concat ss).
Proof.
  induction ss as [|s ss IH]; intros st; simpl.
  - now rewrite app_nil_r.
  - now rewrite IH, sentence_step_content, remove_ws_app, app_assoc.
Qed.

Lemma sentence_roundtrip self text :
  remove_ws (concat (SentenceAwareChunker.chunk self text)) = remove_ws text.
Proof.
  unfold SentenceAwareChunker.chunk.
  pose proof (sentence_fold_content self (re_split sentence_boundary text)
                ([], [])) as H.
  destruct (fold_left _ _ _) as [chunks cur].
  rewrite re_split_content in H by apply sentence_boundary_ws.
  unfold content in H. simpl in H. rewrite <- H.
  destruct cur; cbn [truthy].
  - now rewrite remove_ws_nil, app_nil_r.
  - now rewrite remove_ws_snoc, remove_ws_strip.
Qed.

Lemma sentence_step_trimmed self st s :
  Forall trimmed (fst st) ->
  Forall trimmed (fst (SentenceAwareChunker.step self st s)).
Proof.
  destruct st as [chunks cur]. unfold SentenceAwareChunker.step. cbn [fst].
  intros H.
  assert (Hsnoc : Forall trimmed (chunks ++ [strip cur])).
  { apply Forall_app. split; [exact H|].
    constructor; [apply strip_idem | constructor]. }
  repeat match goal with |- context [if ?b then _ else _] => destruct b end;
    cbn [fst]; assumption.
Qed.

Lemma sentence_fold_trimmed self ss :
  forall st,
    Forall trimmed (fst st) ->
    Forall trimmed (fst (fold_left (SentenceAwareChunker.step self) ss st)).
Proof.
  induction ss as [|s ss IH]; intros st H; simpl; [exact H|].
  now apply IH, sentence_step_trimmed.
Qed.

Lemma sentence_chunks_trimmed self text :
  Forall trimmed (SentenceAwareChunker.chunk self text).
Proof.
  unfold SentenceAwareChunker.chunk.
  pose proof (sentence_fold_trimmed self (re_split sentence_boundary text)
                ([], []) (Forall_nil _)) as H.
  destruct (fold_left _ _ _) as [chunks cur]. cbn [fst] in H.
  destruct (truthy cur); [|exact H].
  apply Forall_app. split; [exact H|].
  constructor; [apply strip_idem | constructor].
Qed.

Lemma snoc_not_nil {A : Type} (l : list A) (x : A) : l ++ [x] <> [].
Proof. destruct l; discriminate. Qed.

Lemma sentence_step_live self st s :
  live st -> live (SentenceAwareChunker.step self st s).
Proof.
  destruct st as [chunks cur]. unfold SentenceAwareChunker.step, live.
  cbn [fst snd]. intros H.
  destruct cur as [|c cur]; cbn [truthy]; rewrite ?andb_false_r, ?andb_true_r.
  - destruct H as [H|H]; [|contradiction].
    repeat match goal with |- context [if ?b then _ else _] => destruct b end;
      cbn [fst snd]; now left.
  - repeat match goal with |- context [if ?b then _ else _] => destruct b end;
      cbn [fst snd];
      solve [ left; apply snoc_not_nil | right; discriminate ].
Qed.

Lemma sentence_fold_live self ss :
  forall st, live st -> live (fold_left (SentenceAwareChunker.step self) ss st).
Proof.
  induction ss as [|s ss IH]; intros st H; simpl; [exact H|].
  now apply IH, sentence_step_live.
Qed.

Lemma sentence_step_first self s :
  s <> [] -> live (SentenceAwareChunker.step self ([], []) s).
Proof.
  intros Hs. unfold SentenceAwareChunker.step, live. cbn [truthy].
  rewrite andb_false_r.
  repeat match goal with |- context [if ?b then _ else _] => destruct b end;
    cbn [fst snd]; right; try exact Hs; discriminate.
Qed.

Lemma sentence_nonempty self text :
  text <> [] -> SentenceAwareChunker.chunk self text <> [].
Proof.
  intros Ht. unfold SentenceAwareChunker.chunk.
  destruct (re_split_head sentence_boundary text (fun _ => eq_refl) Ht)
    as (p & ps & -> & Hp).
  simpl fold_left.
  pose proof (sentence_fold_live self ps _ (sentence_step_first self p Hp)) as H.
  destruct (fold_left _ _ _) as [chunks cur]. unfold live in H. cbn [fst snd] in H.
  destruct cur as [|c cur]; cbn [truthy].
  - destruct H as [H|H]; [exact H | contradiction].
  - apply snoc_not_nil.
Qed.

Lemma sentence_empty self :
  0 <= SentenceAwareChunker.target_size self ->
  SentenceAwareChunker.chunk self [] = [].
Proof.
  intros H. apply Z.leb_le in H.
  unfold SentenceAwareChunker.chunk, re_split. simpl.
  rewrite andb_false_r. unfold len. simpl. now rewrite H.
Qed.

(** ** The paragraph loop *)

Lemma remove_ws_blank_line : remove_ws blank_line = [].
Proof. reflexivity. Qed.

Lemma paragraph_merge_content self st pc :
  content (ParagraphAwareChunker.merge self st pc) = content st ++ remove_ws pc.
Proof.
  destruct st as [chunks cur]. unfold ParagraphAwareChunker.merge, content.
  destruct cur as [|c cur]; cbn [truthy];
    repeat match goal with |- context [if ?b then _ else _] => destruct b end;
    cbn [fst snd];
    rewrite ?remove_ws_snoc, ?remove_ws_app, ?remove_ws_blank_line,
      ?remove_ws_nil, ?app_nil_r, <- ?app_assoc; reflexivity.
Qed.

Lemma paragraph_merge_fold_content self pcs :
  forall st,
    content (fold_left (ParagraphAwareChunker.merge self) pcs st)
    = content st ++ remove_ws (concat pcs).
Proof.
  induction pcs as [|pc pcs IH]; intros st; simpl.
  - now rewrite remove_ws_nil, app_nil_r.
  - now rewrite IH, paragraph_merge_content, remove_ws_app, app_assoc.
Qed.

Lemma paragraph_step_content self st p :
  content (ParagraphAwareChunker.step self st p) = content st ++ remove_ws p.
Proof.
  unfold ParagraphAwareChunker.step.
  rewrite <- (remove_ws_strip p).
  destruct (strip p) as [|c q] eqn:E; cbn [truthy negb].
  - now rewrite remove_ws_nil, app_nil_r.
  - destruct st as [chunks cur].
    destruct (len (c :: q) >? _).
    + now rewrite paragraph_merge_fold_content, sentence_roundtrip.
    + unfold content.
      destruct cur as [|d cur]; cbn [truthy];
        repeat match goal with |- context [if ?b then _ else _] => destruct b end;
        cbn [fst snd];
        rewrite ?remove_ws_snoc, ?remove_ws_app, ?remove_ws_blank_line,
          ?remove_ws_nil, ?app_nil_r, <- ?app_assoc; reflexivity.
Qed.

Lemma paragraph_fold_content self ps :
  forall st,
    content (fold_left (ParagraphAwareChunker.step self) ps st)
    = content st ++ remove_ws (concat ps).
Proof.
  induction ps as [|p ps IH]; intros st; simpl.
  - now rewrite remove_ws_nil, app_nil_r.
  - now rewrite IH, paragraph_step_content, remove_ws_app, app_assoc.
Qed.

Lemma paragraph_roundtrip self text :
  remove_ws (concat (ParagraphAwareChunker.chunk self text)) = remove_ws text.
Proof.
  unfold ParagraphAwareChunker.chunk.
  pose proof (paragraph_fold_content self (re_split paragraph_break text)
                ([], [])) as H.
  destruct (fold_left _ _ _) as [chunks cur].
  rewrite re_split_content in H by apply paragraph_break_ws.
  unfold content in H. simpl in H. rewrite <- H.
  destruct cur; cbn [truthy].
  - now rewrite remove_ws_nil, app_nil_r.
  - now rewrite remove_ws_snoc.
Qed.

Lemma paragraph_fold_all_space self ps :
  Forall (fun p => forallb isspace p = true) ps ->
  forall st, fold_left (ParagraphAwareChunker.step self) ps st = st.
Proof.
  induction 1 as [|p ps Hp _ IH]; intros st; simpl; [reflexivity|].
  rewrite IH. unfold ParagraphAwareChunker.step.
  now rewrite strip_all_space.
Qed.

Lemma paragraph_all_space self text :
  forallb isspace text = true -> ParagraphAwareChunker.chunk self text = [].
Proof.
  intros H. unfold ParagraphAwareChunker.chunk.
  rewrite paragraph_fold_all_space; [reflexivity|].
  now apply re_split_aux_all_space.
Qed.

Lemma remove_ws_not_nil (s : str) :
  (exists c, In c s /\ isspace c = false) -> remove_ws s <> [].
Proof.
  intros (c & Hin & Hc) E.
  assert (Hf : In c (remove_ws s)).
  { apply filter_In. split; [exact Hin | now rewrite Hc]. }
  rewrite E in Hf. contradiction.
Qed.

Lemma paragraph_nonempty self text :
  (exists c, In c text /\ isspace c = false) ->
  ParagraphAwareChunker.chunk self text <> [].
Proof.
  intros H E. apply (remove_ws_not_nil text H).
  now rewrite <- (paragraph_roundtrip self text), E.
Qed.

(** ** Slices *)

Lemma len_nonneg {A : Type} (l : list A) : 0 <= len l.
Proof. unfold len. lia. Qed.

Lemma slice_nonneg {A : Type} (s : list A) (i j : Z) :
  0 <= i -> 0 <= j ->
  slice s i j = firstn (Z.to_nat (j - i)) (skipn (Z.to_nat i) s).
Proof.
  intros Hi Hj. unfold slice, slice_bound.
  destruct (Z.ltb_spec i 0); [lia|]. destruct (Z.ltb_spec j 0); [lia|].
  unfold len.
  destruct (Z.le_gt_cases i (Z.of_nat (length s))) as [Hin|Hin].
  - rewrite (Z.min_l i) by lia.
    destruct (Z.le_gt_cases j (Z.of_nat (length s))) as [Hjn|Hjn].
    + now rewrite (Z.min_l j) by lia.
    + rewrite (Z.min_r j) by lia.
      rewrite !firstn_all2; [reflexivity| |]; rewrite length_skipn; lia.
  - rewrite (Z.min_r i) by lia.
    rewrite (skipn_all2 (n := Z.to_nat i)) by lia.
    rewrite skipn_all2 by lia. now rewrite !firstn_nil.
Qed.

Lemma slice_len {A : Type} (s : list A) (i j : Z) :
  0 <= i <= j -> j <= len s -> len (slice s i j) = j - i.
Proof.
  intros Hij Hj. rewrite slice_nonneg by lia. unfold len in *.
  rewrite length_firstn, length_skipn. lia.
Qed.

Lemma slice_all {A : Type} (s : list A) : slice s 0 (len s) = s.
Proof.
  rewrite slice_nonneg by (try apply len_nonneg; lia).
  simpl. apply firstn_all2. unfold len. lia.
Qed.

Lemma firstn_add_skipn {A : Type} (a b : nat) :
  forall l : list A, firstn a l ++ firstn b (skipn a l) = firstn (a + b) l.
Proof.
  induction a as [|a IH]; intros l; [reflexivity|].
  destruct l as [|x l]; simpl.
  - now rewrite firstn_nil.
  - now rewrite IH.
Qed.

Lemma slice_last_first (s : str) (a w n b : Z) :
  0 <= a -> 0 <= n <= w -> a + w <= len s -> a + w <= b ->
  last_chars n (slice s a (a + w)) = first_chars n (slice s (a + w - n) b).
Proof.
  intros Ha Hn Hw Hb. unfold last_chars, first_chars.
  assert (Hl : length (slice s a (a + w)) = Z.to_nat w).
  { pose proof (slice_len s a (a + w) ltac:(lia) Hw) as H. unfold len in H. lia. }
  rewrite Hl. rewrite !slice_nonneg by lia. unfold len in *.
  rewrite skipn_firstn_comm, skipn_skipn, firstn_firstn.
  f_equal; [|f_equal]; lia.
Qed.

(** ** The fixed-width splitter *)

Lemma naive_chunk_eq (cs : Z) (text : str) :
  1 <= cs ->
  NaiveChunker.chunk {| NaiveChunker.chunk_size := cs |} text
  = Ok (map (fun k => slice text (Z.of_nat k * cs) (Z.of_nat k * cs + cs))
            (seq 0 (Z.to_nat (range_len 0 (len text) cs)))).
Proof.
  intros Hcs. unfold NaiveChunker.chunk, range. cbn [NaiveChunker.chunk_size].
  destruct (Z.eqb_spec cs 0); [lia|].
  rewrite map_map. reflexivity.
Qed.

Lemma naive_prefix (cs : Z) (text : str) (m : nat) :
  1 <= cs ->
  concat (map (fun k => slice text (Z.of_nat k * cs) (Z.of_nat k * cs + cs))
              (seq 0 m))
  = firstn (m * Z.to_nat cs) text.
Proof.
  intros Hcs. induction m as [|m IH]; [reflexivity|].
  rewrite seq_S, map_app, concat_app, IH. simpl.
  rewrite app_nil_r, slice_nonneg by nia.
  replace (Z.to_nat (Z.of_nat m * cs)) with (m * Z.to_nat cs)%nat by nia.
  replace (Z.to_nat (Z.of_nat m * cs + cs - Z.of_nat m * cs)) with (Z.to_nat cs)
    by lia.
  rewrite firstn_add_skipn. f_equal. lia.
Qed.

Lemma range_len_covers (n cs : Z) :
  1 <= cs -> 0 <= n -> n <= range_len 0 n cs * cs.
Proof.
  intros Hcs Hn. unfold range_len.
  destruct (Z.ltb_spec 0 cs); [|lia].
  destruct (Z.ltb_spec 0 n); [|lia].
  pose proof (Z.mul_succ_div_gt (n - 0 - 1) cs ltac:(lia)). lia.
Qed.

Lemma range_len_pos (n cs : Z) :
  1 <= cs -> 0 < n -> 0 < range_len 0 n cs.
Proof.
  intros Hcs Hn. unfold range_len.
  destruct (Z.ltb_spec 0 cs); [|lia].
  destruct (Z.ltb_spec 0 n); [|lia].
  pose proof (Z.div_pos (n - 0 - 1) cs ltac:(lia) ltac:(lia)). lia.
Qed.

Lemma naive_concat (cs : Z) (text : str) :
  1 <= cs ->
  exists chunks,
    NaiveChunker.chunk {| NaiveChunker.chunk_size := cs |} text = Ok chunks
    /\ concat chunks = text.
Proof.
  intros Hcs. eexists. split; [now apply naive_chunk_eq|].
  rewrite naive_prefix by exact Hcs. apply firstn_all2.
  pose proof (range_len_covers (len text) cs Hcs (len_nonneg text)) as H.
  unfold len in *.
  assert (0 <= range_len 0 (Z.of_nat (length text)) cs).
  { unfold range_len. destruct (Z.ltb_spec 0 cs); [|lia].
    destruct (Z.ltb_spec 0 (Z.of_nat (length text))); [|lia].
    apply Z.add_nonneg_nonneg; [|lia]. apply Z.div_pos; lia. }
  nia.
Qed.

(** ** The overlap loop *)

Lemma chunk_loop_acc (self : OverlapChunker.t) (text : str) :
  forall fuel start acc,
    OverlapChunker.chunk_loop fuel self text start acc
    = option_map (app acc) (OverlapChunker.chunk_loop fuel self text start []).
Proof.
  induction fuel as [|fuel IH]; intros start acc; simpl; [reflexivity|].
  destruct (start <? len text); [|simpl; now rewrite app_nil_r].
  destruct (_ =? len text); [reflexivity|].
  rewrite IH. rewrite (IH _ [_]).
  destruct (OverlapChunker.chunk_loop fuel self text _ []); simpl;
    [now rewrite <- app_assoc | reflexivity].
Qed.

Lemma chunk_loop_more_fuel (self : OverlapChunker.t) (text : str) :
  forall fuel k start acc chunks,
    OverlapChunker.chunk_loop fuel self text start acc = Some chunks ->
    OverlapChunker.chunk_loop (fuel + k) self text start acc = Some chunks.
Proof.
  induction fuel as [|fuel IH]; intros k start acc chunks; simpl;
    [discriminate|].
  destruct (start <? len text); [|trivial].
  destruct (_ =? len text); [trivial|]. apply IH.
Qed.

Lemma chunk_loop_valid (w ov : Z) (text : str) :
  0 <= ov < w ->
  forall fuel start,
    0 <= start < len text -> len text - start < Z.of_nat fuel ->
    let self := {| OverlapChunker.chunk_size := w; OverlapChunker.overlap := ov |} in
    let c := slice text start (Z.min (start + w) (len text)) in
    exists rest,
      OverlapChunker.chunk_loop fuel self text start [] = Some (c :: rest)
      /\ adjacent_overlap ov (c :: rest)
      /\ (len text <= start + w -> rest = []).
Proof.
  intros Hov. induction fuel as [|fuel IH]; intros start Hs Hf; [lia|].
  cbn zeta. cbn [OverlapChunker.chunk_loop OverlapChunker.chunk_size
                  OverlapChunker.overlap].
  destruct (Z.ltb_spec start (len text)); [|lia].
  destruct (Z.eqb_spec (Z.min (start + w) (len text)) (len text)) as [E|E].
  - exists []. split; [reflexivity|]. split; [exact I | reflexivity].
  - assert (Hlt : start + w < len text) by lia.
    rewrite Z.min_l in * by lia.
    rewrite chunk_loop_acc.
    destruct (IH (start + w - ov)) as (rest & Hrest & Hadj & _); [lia|lia|].
    cbn zeta in Hrest, Hadj. rewrite Hrest.
    eexists. split; [reflexivity|]. split; [|lia].
    cbn [adjacent_overlap]. split; [|split; [|split]].
    + rewrite slice_len; lia.
    + rewrite slice_len; lia.
    + apply slice_last_first; lia.
    + exact Hadj.
Qed.

Lemma overlap_chunk_empty (self : OverlapChunker.t) (fuel : nat) :
  OverlapChunker.chunk self (S fuel) [] = Some [].
Proof. reflexivity. Qed.

(** ** The paragraph splitter against its specification *)

Lemma fold_left_ext {A B : Type} (f g : A -> B -> A) (l : list B) :
  (forall a b, f a b = g a b) -> forall a, fold_left f l a = fold_left g l a.
Proof.
  intros H. induction l as [|b l IH]; intros a; simpl; [reflexivity|].
  now rewrite H, IH.
Qed.

Lemma paragraph_merge_is_fit_or_flush self st pc :
  ParagraphAwareChunker.merge self st pc
  = fit_or_flush (ParagraphAwareChunker.target_size self) st pc.
Proof. now destruct st. Qed.

Lemma paragraph_step_is_place self st p :
  strip p <> [] ->
  ParagraphAwareChunker.step self st p
  = place_paragraph 1200 (ParagraphAwareChunker.target_size self) st (strip p).
Proof.
  intros Hp. unfold ParagraphAwareChunker.step, place_paragraph.
  destruct (strip p) as [|c q]; [contradiction|]. cbn [truthy negb].
  destruct st as [chunks cur].
  destruct (len (c :: q) >? _); [|reflexivity].
  apply fold_left_ext. intros a b. apply paragraph_merge_is_fit_or_flush.
Qed.

Lemma paragraph_fold_is_place self ps :
  forall st,
    fold_left (ParagraphAwareChunker.step self) ps st
    = fold_left (place_paragraph 1200 (ParagraphAwareChunker.target_size self))
                (filter truthy (map strip ps)) st.
Proof.
  induction ps as [|p ps IH]; intros st; simpl; [reflexivity|].
  destruct (strip p) as [|c q] eqn:E; cbn [truthy].
  - rewrite IH. unfold ParagraphAwareChunker.step. now rewrite E.
  - simpl. rewrite IH, <- E. f_equal. apply paragraph_step_is_place.
    rewrite E. discriminate.
Qed.

(** ** The analyzer *)

Lemma in_enumerate_from {A : Type} (l : list A) :
  forall (s : nat) (k : Z) (x : A),
    In (k, x) (combine (map Z.of_nat (seq s (length l))) l) <->
    Z.of_nat s <= k < Z.of_nat s + len l
    /\ nth_error l (Z.to_nat k - s) = Some x.
Proof.
  unfold len. induction l as [|a l IH]; intros s k x; simpl.
  - split; [contradiction | lia].
  - rewrite IH. split.
    + intros [H|[Hk Hx]].
      * injection H as <- <-. split; [lia|].
        now replace (Z.to_nat (Z.of_nat s) - s)%nat with 0%nat by lia.
      * split; [lia|].
        now replace (Z.to_nat k - s)%nat with (S (Z.to_nat k - S s)) by lia.
    + intros [Hk Hx]. destruct (Z.eq_dec k (Z.of_nat s)) as [->|Hne].
      * left. replace (Z.to_nat (Z.of_nat s) - s)%nat with 0%nat in Hx by lia.
        simpl in Hx. now injection Hx as ->.
      * right. split; [lia|].
        now replace (Z.to_nat k - s)%nat with (S (Z.to_nat k - S s)) in Hx
          by lia.
Qed.

Lemma in_enumerate {A : Type} (l : list A) (k : Z) (x : A) :
  In (k, x) (enumerate l) <->
  0 <= k < len l /\ nth_error l (Z.to_nat k) = Some x.
Proof.
  unfold enumerate. rewrite in_enumerate_from.
  now rewrite Nat.sub_0_r.
Qed.

Lemma analyze_chunk_index lower self chunks i chunk p :
  In p (ChunkAnalyzer.analyze_chunk lower self chunks i chunk) ->
  chunk_index p = i.
Proof.
  unfold ChunkAnalyzer.analyze_chunk. intros H.
  apply in_app_or in H as [H|H]; [|apply in_app_or in H as [H|H]].
  - destruct (_ && _); [|contradiction].
    destruct H as [<-|[]]. reflexivity.
  - apply in_flat_map in H as (phrase & _ & H).
    destruct (contains _ _); [|contradiction].
    destruct H as [<-|[]]. reflexivity.
  - destruct (startswith_any _ _); [|contradiction].
    destruct (_ || _); [|contradiction].
    destruct H as [<-|[]]. reflexivity.
Qed.

Lemma analyze_chunk_semantic_break lower self chunks i chunk :
  (exists p,
      In p (ChunkAnalyzer.analyze_chunk lower self chunks i chunk)
      /\ problem_type p = py "Semantic Break")
  <-> (i >? 0)
      && negb (endswith_any (rstrip (getitem chunks (i - 1)))
                            (ChunkAnalyzer.sentence_endings self)) = true.
Proof.
  unfold ChunkAnalyzer.analyze_chunk. split.
  - intros (p & H & Ht).
    apply in_app_or in H as [H|H]; [|apply in_app_or in H as [H|H]].
    + destruct (_ && _); [reflexivity | contradiction].
    + apply in_flat_map in H as (phrase & _ & H).
      destruct (contains _ _); [|contradiction].
      destruct H as [<-|[]]. cbn [problem_type] in Ht.
      vm_compute in Ht. discriminate.
    + destruct (startswith_any _ _); [|contradiction].
      destruct (_ || _); [|contradiction].
      destruct H as [<-|[]]. cbn [problem_type] in Ht.
      vm_compute in Ht. discriminate.
  - intros ->. eexists. split; [apply in_or_app; left; left; reflexivity|].
    reflexivity.
Qed.

Lemma analyze_chunk_ext lower lower' self chunks i chunk :
  lower chunk = lower' chunk ->
  ChunkAnalyzer.analyze_chunk lower self chunks i chunk
  = ChunkAnalyzer.analyze_chunk lower' self chunks i chunk.
Proof.
  intros H. unfold ChunkAnalyzer.analyze_chunk, ChunkAnalyzer._extract_context.
  now rewrite H.
Qed.

Lemma flat_map_ext_in {A B : Type} (f g : A -> list B) (l : list A) :
  (forall a, In a l -> f a = g a) -> flat_map f l = flat_map g l.
Proof.
  induction l as [|a l IH]; intros H; simpl; [reflexivity|].
  rewrite (H a) by now left. rewrite IH; [reflexivity|].
  intros b Hb. apply H. now right.
Qed.

Lemma analyze_chunks_ext lower lower' self chunks :
  (forall c, In c chunks -> lower c = lower' c) ->
  ChunkAnalyzer.analyze_chunks lower self chunks
  = ChunkAnalyzer.analyze_chunks lower' self chunks.
Proof.
  intros H. unfold ChunkAnalyzer.analyze_chunks.
  apply flat_map_ext_in. intros [k c] Hin. cbn [fst snd].
  apply analyze_chunk_ext, H.
  apply in_enumerate in Hin as [_ Hc]. now apply nth_error_In in Hc.
Qed.

(** ** How far a sentence chunk can exceed [max_size]

    A chunk is either one sentence longer than [max_size], emitted alone, or
    at most one character above [max_size]: each join adds a space that the
    size checks leave out. *)

Lemma lstrip_length (s : str) : (length (lstrip s) <= length s)%nat.
Proof.
  induction s as [|c s IH]; simpl; [lia|].
  destruct (isspace c); simpl; lia.
Qed.

Lemma strip_len (s : str) : len (strip s) <= len s.
Proof.
  unfold len, strip, rstrip. rewrite length_rev.
  pose proof (lstrip_length (rev (lstrip s))) as H1.
  pose proof (lstrip_length s) as H2.
  rewrite length_rev in H1. lia.
Qed.

Lemma len_app {A : Type} (a b : list A) : len (a ++ b) = len a + len b.
Proof. unfold len. rewrite length_app. lia. Qed.

Lemma sentence_step_bound self (sentences : list str) st s :
  let mx := SentenceAwareChunker.max_size self in
  let held c :=
    c = [] \/ len c <= mx + 1 \/ exists x, In x sentences /\ mx < len x /\ c = x in
  let bounded c :=
    len c <= mx + 1 \/ exists x, In x sentences /\ mx < len x /\ c = strip x in
  In s sentences ->
  Forall bounded (fst st) -> held (snd st) ->
  Forall bounded (fst (SentenceAwareChunker.step self st s))
  /\ held (snd (SentenceAwareChunker.step self st s)).
Proof.
  intros mx held bounded Hs Hchunks Hcur. destruct st as [chunks cur].
  cbn [fst snd] in *.
  assert (Hfresh : held s).
  { destruct (Z.le_gt_cases (len s) mx); [right; left; lia|].
    right. right. exists s. repeat split; [exact Hs | lia]. }
  unfold SentenceAwareChunker.step. fold mx.
  destruct cur as [|c cur]; cbn [truthy]; rewrite ?andb_false_r, ?andb_true_r.
  - destruct (_ <=? _); [now split|].
    destruct (Z.leb_spec (len (@nil char) + len s) mx); [|now split].
    split; [exact Hchunks|]. right. left. cbn [fst snd].
    rewrite !len_app. change (len (py " ")) with 1. lia.
  - assert (Hflush : Forall bounded (chunks ++ [strip (c :: cur)])).
    { apply Forall_app. split; [exact Hchunks|]. constructor; [|constructor].
      destruct Hcur as [H|[H|(x & Hx & Hlen & ->)]]; [discriminate| |].
      - left. pose proof (strip_len (c :: cur)). lia.
      - right. now exists x. }
    destruct (Z.gtb_spec (len (c :: cur) + len s) mx) as [Hgt|Hle];
      [now split|].
    assert (Hjoin : held ((c :: cur) ++ py " " ++ s)).
    { right. left. rewrite !len_app. change (len (py " ")) with 1. lia. }
    destruct (_ <=? _); [now split|].
    destruct (Z.leb_spec (len (c :: cur) + len s) mx); [now split | lia].
Qed.

Lemma sentence_chunk_length_bound self text :
  Forall
    (fun c =>
       len c <= SentenceAwareChunker.max_size self + 1
       \/ exists x, In x (re_split sentence_boundary text)
                    /\ SentenceAwareChunker.max_size self < len x
                    /\ c = strip x)
    (SentenceAwareChunker.chunk self text).
Proof.
  unfold SentenceAwareChunker.chunk.
  set (sentences := re_split sentence_boundary text).
  set (mx := SentenceAwareChunker.max_size self).
  set (bounded := fun c : str =>
         len c <= mx + 1
         \/ exists x, In x sentences /\ mx < len x /\ c = strip x).
  set (held := fun c : str =>
         c = [] \/ len c <= mx + 1
         \/ exists x, In x sentences /\ mx < len x /\ c = x).
  assert (Hfold : forall ss st,
             incl ss sentences ->
             Forall bounded (fst st) -> held (snd st) ->
             Forall bounded
               (fst (fold_left (SentenceAwareChunker.step self) ss st))
             /\ held (snd (fold_left (SentenceAwareChunker.step self) ss st))).
  { induction ss as [|s ss IH]; intros st Hincl H1 H2; simpl; [now split|].
    destruct (sentence_step_bound self sentences st s) as [H1' H2'];
      [apply Hincl; now left | exact H1 | exact H2 |].
    apply IH; [|exact H1'|exact H2'].
    intros x Hx. apply Hincl. now right. }
  destruct (Hfold sentences ([], [])) as [H1 H2];
    [apply incl_refl | constructor | now left |].
  destruct (fold_left _ _ _) as [chunks cur]. cbn [fst snd] in *.
  destruct cur as [|c cur]; cbn [truthy]; [exact H1|].
  apply Forall_app. split; [exact H1|]. constructor; [|constructor].
  destruct H2 as [H|[H|(x & Hx & Hlen & ->)]]; [discriminate| |].
  - left. pose proof (strip_len (c :: cur)). fold mx. lia.
  - right. now exists x.
Qed.

(** ** The overlap loop without progress

    When [overlap >= chunk_size >= 1] and the text is longer than
    [chunk_size], [start] never rises above 0 and the loop never ends. *)
Lemma overlap_loop_no_progress (w ov : Z) (text : str) :
  1 <= w <= ov -> w < len text ->
  forall fuel start acc,
    start <= 0 ->
    OverlapChunker.chunk_loop fuel
      {| OverlapChunker.chunk_size := w; OverlapChunker.overlap := ov |}
      text start acc = None.
Proof.
  intros Hw Hlen. induction fuel as [|fuel IH]; intros start acc Hs;
    [reflexivity|].
  cbn [OverlapChunker.chunk_loop OverlapChunker.chunk_size
       OverlapChunker.overlap].
  destruct (Z.ltb_spec start (len text)); [|lia].
  rewrite Z.min_l by lia.
  destruct (Z.eqb_spec (start + w) (len text)); [lia|].
  apply IH. lia.
Qed.

(** * The claims *)

(** C1.  The size check of [SentenceAwareChunker.chunk] compares
    [len(current_chunk) + len(sentence)] with [max_size] and then joins the
    two with a space that the check did not count.  On
    "aaaaaaaaa. bbbbbbbbb." with [target_size = 15] and [max_size = 20] the
    two sentences have 10 characters each, none exceeds [max_size], and the
    single chunk returned has 21 characters. *)
Theorem sentence_chunk_exceeds_max_size :
  let self := SentenceAwareChunker.init (Some 15) (Some 20) in
  let text := py "aaaaaaaaa. bbbbbbbbb." in
  re_split sentence_boundary text = [py "aaaaaaaaa."; py "bbbbbbbbb."]
  /\ len (py "aaaaaaaaa.") = 10
  /\ len (py "bbbbbbbbb.") = 10
  /\ SentenceAwareChunker.chunk self text = [py "aaaaaaaaa. bbbbbbbbb."]
  /\ len (py "aaaaaaaaa. bbbbbbbbb.") = 21
  /\ SentenceAwareChunker.max_size self = 20.
Proof. vm_compute. repeat split. Qed.

(** C2, as stated, fails on the empty text: its length is at most the width,
    and [OverlapChunker.chunk] returns no chunk at all. *)
Lemma overlap_empty_text_yields_no_chunk :
  let self := OverlapChunker.init (Some 10) (Some 3) in
  0 <= OverlapChunker.overlap self < OverlapChunker.chunk_size self
  /\ len (@nil char) <= OverlapChunker.chunk_size self
  /\ OverlapChunker.chunk self 1 [] = Some []
  /\ length (@nil str) <> 1%nat.
Proof. vm_compute. repeat split; discriminate. Qed.

(** C2, amended.  For [0 <= overlap < width] the loop of
    [OverlapChunker.chunk] terminates (any fuel above the length of the text
    is enough), every pair of neighbouring chunks, the last pair included,
    shares exactly [overlap] characters (the last [overlap] characters of the
    one are the first [overlap] characters of the next), a non-empty text of
    length at most [width] yields the text as its single chunk, and the empty
    text yields no chunk. *)
Theorem overlap_chunker_exact (text : str) (w ov : Z) :
  0 <= ov < w ->
  exists chunks,
    (forall fuel, (length text < fuel)%nat ->
        OverlapChunker.chunk
          {| OverlapChunker.chunk_size := w; OverlapChunker.overlap := ov |}
          fuel text = Some chunks)
    /\ adjacent_overlap ov chunks
    /\ (0 < len text <= w -> chunks = [text])
    /\ (text = [] -> chunks = []).
Proof.
  intros Hov. destruct text as [|c text].
  - exists []. repeat split; try easy.
    intros [|fuel] Hf; [simpl in Hf; lia | reflexivity].
  - set (t := c :: text).
    destruct (chunk_loop_valid w ov t Hov (S (length t)) 0) as (rest & H & Hadj & Hone).
    + unfold len. simpl. lia.
    + unfold len. lia.
    + cbn zeta in H, Hadj. eexists. split; [|split; [exact Hadj|split]].
      * intros fuel Hf. unfold OverlapChunker.chunk.
        replace fuel with (S (length t) + (fuel - S (length t)))%nat by lia.
        apply chunk_loop_more_fuel. exact H.
      * intros Hw. rewrite Hone by lia.
        rewrite Z.min_r by lia. now rewrite slice_all.
      * discriminate.
Qed.

Lemma overlap_chunker_exact_witness :
  0 <= 3 < 10
  /\ exists chunks,
      (forall fuel, (length (py "abcdefghijklmnopqrstuvwxy") < fuel)%nat ->
          OverlapChunker.chunk
            {| OverlapChunker.chunk_size := 10; OverlapChunker.overlap := 3 |}
            fuel (py "abcdefghijklmnopqrstuvwxy") = Some chunks)
      /\ adjacent_overlap 3 chunks
      /\ (0 < len (py "abcdefghijklmnopqrstuvwxy") <= 10 ->
          chunks = [py "abcdefghijklmnopqrstuvwxy"])
      /\ (py "abcdefghijklmnopqrstuvwxy" = [] -> chunks = []).
Proof.
  split; [lia|].
  apply (overlap_chunker_exact (py "abcdefghijklmnopqrstuvwxy") 10 3). lia.
Defined.

(** C3.  Scenario A: with [target_size = 15] and [max_size = 20] the text
    "Sentence one. Sentence two. Sentence three." is cut into its three
    sentences, one per chunk. *)
Theorem scenario_sentence_chunks :
  SentenceAwareChunker.chunk
    (SentenceAwareChunker.init (Some 15) (Some 20))
    (py "Sentence one. Sentence two. Sentence three.")
  = [py "Sentence one."; py "Sentence two."; py "Sentence three."].
Proof. vm_compute. reflexivity. Qed.

(** C4.  Round trip: the chunks of [NaiveChunker.chunk] (for a chunk size of
    at least 1) concatenate to the text itself; the chunks of
    [SentenceAwareChunker.chunk] and of [ParagraphAwareChunker.chunk]
    concatenate to the text once all whitespace is deleted on both sides. *)
Theorem chunkers_round_trip (text : str) (cs target max ptarget : Z) :
  1 <= cs ->
  (exists chunks,
      NaiveChunker.chunk {| NaiveChunker.chunk_size := cs |} text = Ok chunks
      /\ concat chunks = text)
  /\ remove_ws
       (concat (SentenceAwareChunker.chunk
                  {| SentenceAwareChunker.target_size := target;
                     SentenceAwareChunker.max_size := max |} text))
     = remove_ws text
  /\ remove_ws
       (concat (ParagraphAwareChunker.chunk
                  {| ParagraphAwareChunker.target_size := ptarget |} text))
     = remove_ws text.
Proof.
  intros Hcs. split; [now apply naive_concat|].
  split; [apply sentence_roundtrip | apply paragraph_roundtrip].
Qed.

Lemma chunkers_round_trip_witness :
  1 <= 4
  /\ (exists chunks,
        NaiveChunker.chunk {| NaiveChunker.chunk_size := 4 |}
          (py "One two.  Three!") = Ok chunks
        /\ concat chunks = py "One two.  Three!")
  /\ remove_ws
       (concat (SentenceAwareChunker.chunk
                  {| SentenceAwareChunker.target_size := 5;
                     SentenceAwareChunker.max_size := 9 |}
                  (py "One two.  Three!")))
     = remove_ws (py "One two.  Three!")
  /\ remove_ws
       (concat (ParagraphAwareChunker.chunk
                  {| ParagraphAwareChunker.target_size := 5 |}
                  (py "One two.  Three!")))
     = remove_ws (py "One two.  Three!").
Proof.
  split; [lia|].
  apply (chunkers_round_trip (py "One two.  Three!") 4 5 9 5). lia.
Defined.

(** C5.  The fallback of [ParagraphAwareChunker.chunk] builds
    [SentenceAwareChunker(self.target_size)] and so leaves the hard maximum
    at its default 1200 instead of [target_size].  With [target_size = 10]
    the paragraph "aaaaaa. bbbbbb." has 15 characters, more than the target,
    and its two sentences have 7 characters each; the sentence splitter
    configured as the claim says, with 10 as target and as hard maximum,
    cuts it into the two sentences, which the merge loop then keeps apart.
    The code returns the paragraph whole, as one chunk of 15 characters. *)
Theorem paragraph_fallback_max_is_not_target :
  let self := ParagraphAwareChunker.init (Some 10) in
  let text := py "aaaaaa. bbbbbb." in
  ParagraphAwareChunker.target_size self < len (strip text)
  /\ re_split sentence_boundary (strip text) = [py "aaaaaa."; py "bbbbbb."]
  /\ len (py "aaaaaa.") = 7
  /\ len (py "bbbbbb.") = 7
  /\ SentenceAwareChunker.chunk
       {| SentenceAwareChunker.target_size := 10;
          SentenceAwareChunker.max_size := 10 |} (strip text)
     = [py "aaaaaa."; py "bbbbbb."]
  /\ ParagraphSplitter_spec 10 10 text = [py "aaaaaa."; py "bbbbbb."]
  /\ SentenceAwareChunker.max_size
       (SentenceAwareChunker.init
          (Some (ParagraphAwareChunker.target_size self)) None) = 1200
  /\ ParagraphAwareChunker.chunk self text = [py "aaaaaa. bbbbbb."]
  /\ len (py "aaaaaa. bbbbbb.") = 15.
Proof. vm_compute. repeat split. Qed.

(** The fallback as the code has it: [ParagraphAwareChunker.chunk] is the
    paragraph splitter of the specification with the sentence splitter of
    the fallback given [target_size] as its target size and 1200, the
    default of [SentenceAwareChunker], as its hard maximum; each
    sentence-chunk is merged into the accumulator by the same fit-or-flush
    rule as a whole paragraph. *)
Theorem paragraph_chunker_fallback (target : Z) (text : str) :
  ParagraphAwareChunker.chunk {| ParagraphAwareChunker.target_size := target |}
    text
  = ParagraphSplitter_spec 1200 target text.
Proof.
  unfold ParagraphAwareChunker.chunk, ParagraphSplitter_spec.
  rewrite paragraph_fold_is_place. cbn [ParagraphAwareChunker.target_size].
  now destruct (fold_left _ _ _).
Qed.

(** C6, as stated, fails for [ParagraphAwareChunker.chunk]: a text of one
    space is not empty, and no chunk is returned for it. *)
Lemma paragraph_blank_text_yields_no_chunk :
  py " " <> []
  /\ 1 <= ParagraphAwareChunker.target_size (ParagraphAwareChunker.init (Some 100))
  /\ ParagraphAwareChunker.chunk (ParagraphAwareChunker.init (Some 100)) (py " ")
     = [].
Proof. vm_compute. repeat split; discriminate. Qed.

(** C6, amended.  For valid sizes, [NaiveChunker.chunk] and
    [SentenceAwareChunker.chunk] return a non-empty sequence for every
    non-empty text and the empty sequence for the empty text;
    [ParagraphAwareChunker.chunk] returns a non-empty sequence for every text
    with a non-whitespace character and the empty sequence for every text
    made of whitespace only, the empty text included. *)
Theorem chunkers_nonempty_output (text : str) (cs target max ptarget : Z) :
  1 <= cs -> 1 <= target <= max -> 1 <= ptarget ->
  (exists chunks,
      NaiveChunker.chunk {| NaiveChunker.chunk_size := cs |} text = Ok chunks
      /\ (text <> [] -> chunks <> [])
      /\ (text = [] -> chunks = []))
  /\ (text <> [] ->
      SentenceAwareChunker.chunk
        {| SentenceAwareChunker.target_size := target;
           SentenceAwareChunker.max_size := max |} text <> [])
  /\ (text = [] ->
      SentenceAwareChunker.chunk
        {| SentenceAwareChunker.target_size := target;
           SentenceAwareChunker.max_size := max |} text = [])
  /\ ((exists c, In c text /\ isspace c = false) ->
      ParagraphAwareChunker.chunk
        {| ParagraphAwareChunker.target_size := ptarget |} text <> [])
  /\ (forallb isspace text = true ->
      ParagraphAwareChunker.chunk
        {| ParagraphAwareChunker.target_size := ptarget |} text = []).
Proof.
  intros Hcs Ht Hp. split; [|split; [|split; [|split]]].
  - eexists. split; [now apply naive_chunk_eq|]. split.
    + intros Hne E. apply map_eq_nil in E.
      assert (Hpos : 0 < len text).
      { destruct text; [contradiction|]. unfold len. simpl. lia. }
      pose proof (range_len_pos (len text) cs Hcs Hpos) as Hr.
      destruct (Z.to_nat (range_len 0 (len text) cs)) eqn:En; [lia|].
      discriminate.
    + intros ->. unfold range_len, len. simpl.
      now destruct (0 <? cs).
  - apply sentence_nonempty.
  - intros ->. apply sentence_empty. cbn. lia.
  - apply paragraph_nonempty.
  - apply paragraph_all_space.
Qed.

Lemma chunkers_nonempty_output_witness :
  1 <= 4 /\ 1 <= 5 <= 9 /\ 1 <= 5
  /\ (exists chunks,
        NaiveChunker.chunk {| NaiveChunker.chunk_size := 4 |} (py "One two.")
        = Ok chunks
        /\ (py "One two." <> [] -> chunks <> [])
        /\ (py "One two." = [] -> chunks = []))
  /\ (py "One two." <> [] ->
      SentenceAwareChunker.chunk
        {| SentenceAwareChunker.target_size := 5;
           SentenceAwareChunker.max_size := 9 |} (py "One two.") <> [])
  /\ (py "One two." = [] ->
      SentenceAwareChunker.chunk
        {| SentenceAwareChunker.target_size := 5;
           SentenceAwareChunker.max_size := 9 |} (py "One two.") = [])
  /\ ((exists c, In c (py "One two.") /\ isspace c = false) ->
      ParagraphAwareChunker.chunk
        {| ParagraphAwareChunker.target_size := 5 |} (py "One two.") <> [])
  /\ (forallb isspace (py "One two.") = true ->
      ParagraphAwareChunker.chunk
        {| ParagraphAwareChunker.target_size := 5 |} (py "One two.") = []).
Proof.
  split; [lia|]. split; [lia|]. split; [lia|].
  apply (chunkers_nonempty_output (py "One two.") 4 5 9 5); lia.
Defined.

(** C7, as stated, fails: on a 25-character string with [chunk_size = 10]
    and [overlap = 3] the chunks start at 0, 7, 14 and 21, which makes four
    chunks, not three. *)
Lemma overlap_scenario_has_four_chunks :
  len (py "abcdefghijklmnopqrstuvwxy") = 25
  /\ OverlapChunker.chunk (OverlapChunker.init (Some 10) (Some 3)) 26
       (py "abcdefghijklmnopqrstuvwxy")
     = Some [py "abcdefghij"; py "hijklmnopq"; py "opqrstuvwx"; py "vwxy"].
Proof. vm_compute. split; reflexivity. Qed.

(** C7, amended.  [OverlapChunker.chunk] with [chunk_size = 10] and
    [overlap = 3] cuts every 25-character string into four chunks, the
    slices of the text that start at offsets 0, 7, 14 and 21: [text[0:10]],
    [text[7:17]], [text[14:24]] and [text[21:25]], of lengths 10, 10, 10 and
    4, and the last 3 characters of chunk 0 are the first 3 characters of
    chunk 1 (both are [text[7:10]]). *)
Theorem overlap_scenario (text : str) :
  length text = 25%nat ->
  (forall fuel, (4 <= fuel)%nat ->
      OverlapChunker.chunk (OverlapChunker.init (Some 10) (Some 3)) fuel text
      = Some [slice text 0 10; slice text 7 17; slice text 14 24;
              slice text 21 25])
  /\ len (slice text 0 10) = 10
  /\ len (slice text 7 17) = 10
  /\ len (slice text 14 24) = 10
  /\ len (slice text 21 25) = 4
  /\ last_chars 3 (slice text 0 10) = slice text 7 10
  /\ first_chars 3 (slice text 7 17) = slice text 7 10
  /\ last_chars 3 (slice text 0 10) = first_chars 3 (slice text 7 17).
Proof.
  intros H.
  do 25 (destruct text as [|? text]; [discriminate H|]).
  destruct text; [|discriminate H].
  split.
  - intros fuel Hf.
    replace fuel with (4 + (fuel - 4))%nat by lia.
    apply chunk_loop_more_fuel. reflexivity.
  - repeat split.
Qed.

Lemma overlap_scenario_witness :
  length (py "abcdefghijklmnopqrstuvwxy") = 25%nat
  /\ (forall fuel, (4 <= fuel)%nat ->
         OverlapChunker.chunk (OverlapChunker.init (Some 10) (Some 3)) fuel
           (py "abcdefghijklmnopqrstuvwxy")
         = Some [slice (py "abcdefghijklmnopqrstuvwxy") 0 10;
                 slice (py "abcdefghijklmnopqrstuvwxy") 7 17;
                 slice (py "abcdefghijklmnopqrstuvwxy") 14 24;
                 slice (py "abcdefghijklmnopqrstuvwxy") 21 25])
  /\ len (slice (py "abcdefghijklmnopqrstuvwxy") 0 10) = 10
  /\ len (slice (py "abcdefghijklmnopqrstuvwxy") 7 17) = 10
  /\ len (slice (py "abcdefghijklmnopqrstuvwxy") 14 24) = 10
  /\ len (slice (py "abcdefghijklmnopqrstuvwxy") 21 25) = 4
  /\ last_chars 3 (slice (py "abcdefghijklmnopqrstuvwxy") 0 10)
     = slice (py "abcdefghijklmnopqrstuvwxy") 7 10
  /\ first_chars 3 (slice (py "abcdefghijklmnopqrstuvwxy") 7 17)
     = slice (py "abcdefghijklmnopqrstuvwxy") 7 10
  /\ last_chars 3 (slice (py "abcdefghijklmnopqrstuvwxy") 0 10)
     = first_chars 3 (slice (py "abcdefghijklmnopqrstuvwxy") 7 17).
Proof.
  split; [reflexivity|].
  apply (overlap_scenario (py "abcdefghijklmnopqrstuvwxy")). reflexivity.
Defined.




(** C9.  For whatever [str.lower] does, [ChunkAnalyzer.analyze_chunks]
    reports a Semantic Break at chunk [i] exactly when [0 < i], chunk [i]
    exists, and chunk [i-1] with its trailing whitespace removed does not end
    with '.', '!' or '?'.  When [str.lower] acts on ASCII text as ASCII
    lower-casing, the analysis of ["Para ends mid", "sentence. Next."] is
    exactly one problem, a Semantic Break at index 1. *)
Theorem analyze_chunks_semantic_break (lower : str -> str) :
  (forall s, is_ascii s -> lower s = ascii_lower s) ->
  (forall (chunks : list str) (i : Z),
      (exists p,
          In p (ChunkAnalyzer.analyze_chunks lower ChunkAnalyzer.init chunks)
          /\ chunk_index p = i
          /\ problem_type p = py "Semantic Break")
      <->
      (0 < i < len chunks
       /\ exists prev,
           nth_error chunks (Z.to_nat (i - 1)) = Some prev
           /\ endswith_any (rstrip prev) [py "."; py "!"; py "?"] = false))
  /\ ChunkAnalyzer.analyze_chunks lower ChunkAnalyzer.init
       [py "Para ends mid"; py "sentence. Next."]
     = [ {| chunk_index := 1;
            problem_type := py "Semantic Break";
            description := py "Chunk starts mid-sentence";
            example := py "sentence. Next...." |} ].
Proof.
  intros Hlow. split.
  - intros chunks i.
    assert (Hget : forall k, 0 < k <= len chunks ->
              exists prev, nth_error chunks (Z.to_nat (k - 1)) = Some prev
                           /\ getitem chunks (k - 1) = prev).
    { intros k Hk. unfold getitem.
      assert (Hf : (k - 1 <? 0) = false) by (apply Z.ltb_ge; lia).
      rewrite Hf. cbv beta iota zeta. rewrite Hf.
      destruct (nth_error chunks (Z.to_nat (k - 1))) as [prev|] eqn:E.
      - exists prev. split; [reflexivity|]. now apply nth_error_nth.
      - apply nth_error_None in E. unfold len in Hk. lia. }
    unfold ChunkAnalyzer.analyze_chunks. split.
    + intros (p & Hin & Hi & Ht).
      apply in_flat_map in Hin as ([k c] & Hkc & Hp). cbn [fst snd] in Hp.
      apply in_enumerate in Hkc as [Hk _].
      pose proof (analyze_chunk_index _ _ _ _ _ _ Hp) as Hidx.
      assert (Hsb : exists q,
                 In q (ChunkAnalyzer.analyze_chunk lower ChunkAnalyzer.init
                         chunks k c)
                 /\ problem_type q = py "Semantic Break") by eauto.
      apply analyze_chunk_semantic_break in Hsb.
      apply andb_prop in Hsb as [Hpos Hend].
      apply Z.gtb_lt in Hpos. apply negb_true_iff in Hend.
      subst i. rewrite Hidx. split; [lia|].
      destruct (Hget k ltac:(lia)) as (prev & Hnth & Hprev).
      exists prev. split; [exact Hnth|]. now rewrite <- Hprev.
    + intros (Hi & prev & Hnth & Hend).
      destruct (nth_error chunks (Z.to_nat i)) as [c|] eqn:Ec;
        [|apply nth_error_None in Ec; unfold len in Hi; lia].
      assert (Hsb : (i >? 0)
                    && negb (endswith_any (rstrip (getitem chunks (i - 1)))
                               (ChunkAnalyzer.sentence_endings ChunkAnalyzer.init))
                    = true).
      { destruct (Hget i ltac:(lia)) as (prev' & Hnth' & ->).
        rewrite Hnth in Hnth'. injection Hnth' as <-.
        apply andb_true_intro. split; [now apply Z.gtb_lt|].
        apply negb_true_iff. exact Hend. }
      apply (analyze_chunk_semantic_break lower _ chunks i c) in Hsb
        as (p & Hp & Ht).
      exists p. split; [|split; [now apply analyze_chunk_index in Hp | exact Ht]].
      apply in_flat_map. exists (i, c). split; [|exact Hp].
      apply in_enumerate. split; [lia | exact Ec].
  - rewrite (analyze_chunks_ext lower ascii_lower).
    + vm_compute. reflexivity.
    + intros c [<-|[<-|[]]]; apply Hlow; unfold is_ascii;
        repeat constructor.
Qed.

Lemma analyze_chunks_semantic_break_witness :
  (forall s, is_ascii s -> ascii_lower s = ascii_lower s)
  /\ (forall (chunks : list str) (i : Z),
        (exists p,
            In p (ChunkAnalyzer.analyze_chunks ascii_lower ChunkAnalyzer.init
                    chunks)
            /\ chunk_index p = i
            /\ problem_type p = py "Semantic Break")
        <->
        (0 < i < len chunks
         /\ exists prev,
             nth_error chunks (Z.to_nat (i - 1)) = Some prev
             /\ endswith_any (rstrip prev) [py "."; py "!"; py "?"] = false))
  /\ ChunkAnalyzer.analyze_chunks ascii_lower ChunkAnalyzer.init
       [py "Para ends mid"; py "sentence. Next."]
     = [ {| chunk_index := 1;
            problem_type := py "Semantic Break";
            description := py "Chunk starts mid-sentence";
            example := py "sentence. Next...." |} ].
Proof.
  split; [reflexivity|].
  apply (analyze_chunks_semantic_break ascii_lower). reflexivity.
Defined.

(** C10.  Every chunk returned by [SentenceAwareChunker.chunk], for any
    sizes and so for every valid [target_size] and [max_size], equals its own
    trimmed form: it neither starts nor ends with a whitespace character. *)
Theorem sentence_chunks_are_trimmed (self : SentenceAwareChunker.t) (text : str) :
  Forall
    (fun c =>
       strip c = c
       /\ (forall x, hd_error c = Some x -> isspace x = false)
       /\ (forall x, hd_error (rev c) = Some x -> isspace x = false))
    (SentenceAwareChunker.chunk self text).
Proof.
  eapply Forall_impl; [|apply sentence_chunks_trimmed].
  intros c Hc. unfold trimmed in Hc. split; [exact Hc|].
  destruct (strip_ends c) as [Hh Hl]. rewrite Hc in Hh, Hl.
  split; intros x Hx.
  - destruct c; [discriminate|]. injection Hx as <-. exact Hh.
  - destruct (rev c); [discriminate|]. injection Hx as <-. exact Hl.
Qed.

(** * Further properties *)

(** ** Shape of the fixed-width chunks *)

Lemma slice_len_clamped {A : Type} (s : list A) (i j : Z) :
  0 <= i <= j -> len (slice s i j) = Z.min j (len s) - Z.min i (len s).
Proof.
  intros Hij. rewrite slice_nonneg by lia. unfold len.
  rewrite length_firstn, length_skipn. lia.
Qed.

Lemma slice_clamp {A : Type} (s : list A) (i j : Z) :
  0 <= i -> len s <= j -> slice s i j = slice s i (len s).
Proof.
  intros Hi Hj. pose proof (len_nonneg s).
  rewrite !slice_nonneg by lia. unfold len in *.
  rewrite !firstn_all2; [reflexivity| |]; rewrite length_skipn; lia.
Qed.

Lemma range_len_ceil (n cs : Z) :
  1 <= cs -> 0 <= n -> range_len 0 n cs = (n + cs - 1) / cs.
Proof.
  intros Hcs Hn. unfold range_len.
  destruct (Z.ltb_spec 0 cs); [|lia].
  replace (n + cs - 1) with (n - 1 + 1 * cs) by lia.
  rewrite Z.div_add by lia.
  destruct (Z.ltb_spec 0 n).
  - now rewrite Z.sub_0_r.
  - assert (n = 0) by lia. subst n.
    rewrite <- (Z.div_unique_pos (0 - 1) cs (-1) (cs - 1)); lia.
Qed.

(** Below the number of chunks, a chunk index times the chunk size stays
    inside the text, and all but the last leave room for a full chunk. *)
Lemma range_len_index (n cs : Z) (k : nat) :
  1 <= cs -> 0 < n ->
  (k < Z.to_nat (range_len 0 n cs))%nat ->
  Z.of_nat k * cs < n
  /\ ((S k < Z.to_nat (range_len 0 n cs))%nat -> Z.of_nat k * cs + cs < n)
  /\ n <= range_len 0 n cs * cs.
Proof.
  intros Hcs Hn Hk.
  pose proof (range_len_covers n cs Hcs ltac:(lia)) as Hcov.
  unfold range_len in *.
  destruct (Z.ltb_spec 0 cs); [|lia].
  destruct (Z.ltb_spec 0 n); [|lia].
  rewrite Z.sub_0_r in *.
  pose proof (Z.div_mod (n - 1) cs ltac:(lia)) as Hdm.
  pose proof (Z.mod_pos_bound (n - 1) cs ltac:(lia)) as Hmod.
  set (q := (n - 1) / cs) in *.
  assert (0 <= q) by (apply Z.div_pos; lia).
  repeat split; [nia | intros; nia | exact Hcov].
Qed.

(** X1.  For a chunk size of at least 1, [NaiveChunker.chunk] returns
    [ceil(len(text) / chunk_size)] chunks; each has between 1 and
    [chunk_size] characters, and every chunk but the last has exactly
    [chunk_size]. *)
Theorem naive_chunk_shape (text : str) (cs : Z) :
  1 <= cs ->
  exists chunks,
    NaiveChunker.chunk {| NaiveChunker.chunk_size := cs |} text = Ok chunks
    /\ len chunks = (len text + cs - 1) / cs
    /\ forall (i : nat) (c : str),
         nth_error chunks i = Some c ->
         1 <= len c <= cs
         /\ ((S i < length chunks)%nat -> len c = cs).
Proof.
  intros Hcs. eexists. split; [now apply naive_chunk_eq|].
  pose proof (len_nonneg text) as Hn. split.
  - unfold len at 1. rewrite length_map, length_seq.
    rewrite <- range_len_ceil by lia.
    rewrite Z2Nat.id; [reflexivity|].
    rewrite range_len_ceil by lia. apply Z.div_pos; lia.
  - intros i c Hc. rewrite length_map, length_seq.
    rewrite nth_error_map in Hc.
    destruct (nth_error (seq 0 _) i) as [k|] eqn:Hk; [|discriminate].
    injection Hc as <-.
    assert (Hi : (i < Z.to_nat (range_len 0 (len text) cs))%nat).
    { rewrite <- (length_seq (Z.to_nat (range_len 0 (len text) cs)) 0).
      apply nth_error_Some. now rewrite Hk. }
    apply nth_error_nth with (d := 0%nat) in Hk.
    rewrite seq_nth in Hk by exact Hi. simpl in Hk. subst k.
    assert (Hpos : 0 < len text).
    { destruct (Z.eq_dec (len text) 0) as [E|]; [|lia].
      rewrite E in Hi. unfold range_len in Hi.
      destruct (0 <? cs); simpl in Hi; lia. }
    destruct (range_len_index (len text) cs i Hcs Hpos Hi) as (H1 & H2 & _).
    rewrite slice_len_clamped by nia. split; [lia|].
    intros Hlast. specialize (H2 Hlast). lia.
Qed.

Lemma naive_chunk_shape_witness :
  1 <= 4
  /\ exists chunks,
      NaiveChunker.chunk {| NaiveChunker.chunk_size := 4 |} (py "abcdefghij")
      = Ok chunks
      /\ len chunks = (len (py "abcdefghij") + 4 - 1) / 4
      /\ forall (i : nat) (c : str),
           nth_error chunks i = Some c ->
           1 <= len c <= 4
           /\ ((S i < length chunks)%nat -> len c = 4).
Proof.
  split; [lia|]. apply (naive_chunk_shape (py "abcdefghij") 4). lia.
Defined.

(** ** Shape of the overlapping chunks *)

Lemma overlap_chunk_total (w ov : Z) (text : str) :
  0 <= ov < w ->
  exists chunks,
    forall fuel, (length text < fuel)%nat ->
      OverlapChunker.chunk
        {| OverlapChunker.chunk_size := w; OverlapChunker.overlap := ov |}
        fuel text = Some chunks.
Proof.
  intros Hov. destruct text as [|c text].
  - exists []. intros [|fuel] Hf; [simpl in Hf; lia | reflexivity].
  - set (t := c :: text).
    destruct (chunk_loop_valid w ov t Hov (S (length t)) 0) as (rest & H & _).
    + unfold len. simpl. lia.
    + unfold len. lia.
    + cbn zeta in H. eexists. intros fuel Hf. unfold OverlapChunker.chunk.
      replace fuel with (S (length t) + (fuel - S (length t)))%nat by lia.
      apply chunk_loop_more_fuel. exact H.
Qed.

Lemma chunk_loop_shape (w ov : Z) (text : str) :
  0 <= ov < w ->
  forall fuel start chunks,
    0 <= start < len text ->
    OverlapChunker.chunk_loop fuel
      {| OverlapChunker.chunk_size := w; OverlapChunker.overlap := ov |}
      text start [] = Some chunks ->
    exists c rest,
      chunks = c :: rest
      /\ c ++ concat (map (skipn (Z.to_nat ov)) rest)
         = skipn (Z.to_nat start) text
      /\ len c = Z.min w (len text - start)
      /\ Forall (fun x => ov < len x <= w) rest
      /\ Forall (fun x => len x = w) (removelast chunks).
Proof.
  intros Hov. induction fuel as [|fuel IH]; intros start chunks Hs H;
    [discriminate|].
  cbn [OverlapChunker.chunk_loop OverlapChunker.chunk_size
       OverlapChunker.overlap] in H.
  destruct (Z.ltb_spec start (len text)); [|lia].
  destruct (Z.eqb_spec (Z.min (start + w) (len text)) (len text)) as [E|E].
  - injection H as <-. rewrite E. simpl app. eexists _, []. split; [reflexivity|].
    split; [|split; [|split]].
    + simpl. rewrite app_nil_r, slice_nonneg by lia.
      apply firstn_all2. rewrite length_skipn. unfold len. lia.
    + rewrite slice_len by lia. lia.
    + constructor.
    + constructor.
  - assert (Hlt : start + w < len text) by lia.
    rewrite Z.min_l in H by lia. rewrite chunk_loop_acc in H.
    destruct (OverlapChunker.chunk_loop fuel _ text (start + w - ov) [])
      as [tail|] eqn:Et; [|discriminate].
    injection H as <-.
    destruct (IH (start + w - ov) tail ltac:(lia) Et)
      as (c2 & rest & -> & Hcat & Hc2 & Hall & Hfull).
    eexists _, _. split; [reflexivity|]. split; [|split; [|split]].
    + cbn [map concat].
      assert (Hskip : skipn (Z.to_nat ov) c2
                      ++ concat (map (skipn (Z.to_nat ov)) rest)
                      = skipn (Z.to_nat (start + w)) text).
      { replace (Z.to_nat (start + w))
          with (Z.to_nat ov + Z.to_nat (start + w - ov))%nat by lia.
        rewrite <- skipn_skipn, <- Hcat, skipn_app.
        replace (Z.to_nat ov - length c2)%nat with 0%nat
          by (unfold len in *; lia).
        reflexivity. }
      rewrite Hskip, slice_nonneg by lia.
      replace (Z.to_nat (start + w - start)) with (Z.to_nat w) by lia.
      replace (Z.to_nat (start + w))
        with (Z.to_nat w + Z.to_nat start)%nat by lia.
      rewrite <- skipn_skipn. apply firstn_skipn.
    + rewrite slice_len by lia. lia.
    + constructor; [lia | exact Hall].
    + simpl app. cbn [removelast]. constructor; [|exact Hfull].
      rewrite slice_len by lia. lia.
Qed.

(** X2.  For [0 <= overlap < chunk_size] every chunk of
    [OverlapChunker.chunk] has between 1 and [chunk_size] characters, every
    chunk after the first has more than [overlap] characters, and every chunk
    but the last has exactly [chunk_size]. *)
Theorem overlap_chunk_lengths (text : str) (w ov : Z) :
  0 <= ov < w ->
  exists chunks,
    (forall fuel, (length text < fuel)%nat ->
        OverlapChunker.chunk
          {| OverlapChunker.chunk_size := w; OverlapChunker.overlap := ov |}
          fuel text = Some chunks)
    /\ Forall (fun c => 1 <= len c <= w) chunks
    /\ Forall (fun c => ov < len c) (tl chunks)
    /\ Forall (fun c => len c = w) (removelast chunks).
Proof.
  intros Hov. destruct (overlap_chunk_total w ov text Hov) as [chunks H].
  exists chunks. split; [exact H|].
  destruct text as [|c text].
  - specialize (H 1%nat ltac:(simpl; lia)). injection H as <-.
    repeat split; constructor.
  - specialize (H (S (length (c :: text))) ltac:(lia)).
    assert (Hpos : 0 <= 0 < len (c :: text)) by (unfold len; simpl; lia).
    apply chunk_loop_shape in H as (c1 & rest & -> & _ & H0 & H1 & H2);
      [|exact Hov|exact Hpos].
    split; [|split; [|exact H2]].
    + constructor; [lia|].
      eapply Forall_impl; [|exact H1]. cbn beta. intros; lia.
    + simpl. eapply Forall_impl; [|exact H1]. cbn beta. intros; lia.
Qed.

Lemma overlap_chunk_lengths_witness :
  0 <= 3 < 10
  /\ exists chunks,
      (forall fuel, (length (py "abcdefghijklmnopqrstuvwxy") < fuel)%nat ->
          OverlapChunker.chunk
            {| OverlapChunker.chunk_size := 10; OverlapChunker.overlap := 3 |}
            fuel (py "abcdefghijklmnopqrstuvwxy") = Some chunks)
      /\ Forall (fun c => 1 <= len c <= 10) chunks
      /\ Forall (fun c => 3 < len c) (tl chunks)
      /\ Forall (fun c => len c = 10) (removelast chunks).
Proof.
  split; [lia|].
  apply (overlap_chunk_lengths (py "abcdefghijklmnopqrstuvwxy") 10 3). lia.
Defined.



(** X4.  When [overlap >= chunk_size >= 1] and the text is longer than
    [chunk_size], the loop of [OverlapChunker.chunk] never ends: [start]
    never rises above 0, so no amount of fuel yields a result. *)
Theorem overlap_chunk_diverges (text : str) (w ov : Z) :
  1 <= w <= ov -> w < len text ->
  forall fuel,
    OverlapChunker.chunk
      {| OverlapChunker.chunk_size := w; OverlapChunker.overlap := ov |}
      fuel text = None.
Proof.
  intros Hw Hlen fuel. unfold OverlapChunker.chunk.
  apply overlap_loop_no_progress; [exact Hw | exact Hlen | lia].
Qed.

Lemma overlap_chunk_diverges_witness :
  1 <= 5 <= 5 /\ 5 < len (py "abcdefgh")
  /\ forall fuel,
      OverlapChunker.chunk
        {| OverlapChunker.chunk_size := 5; OverlapChunker.overlap := 5 |}
        fuel (py "abcdefgh") = None.
Proof.
  split; [lia|]. split; [unfold len; simpl; lia|].
  apply (overlap_chunk_diverges (py "abcdefgh") 5 5); [lia|].
  unfold len; simpl; lia.
Defined.

(** ** Overlap zero is fixed-width splitting *)

Lemma range_len_zero (cs : Z) : range_len 0 0 cs = 0.
Proof. unfold range_len. now destruct (0 <? cs). Qed.

Lemma range_len_le (n cs : Z) : 1 <= cs -> 0 <= n -> range_len 0 n cs <= n.
Proof.
  intros Hcs Hn. unfold range_len.
  destruct (Z.ltb_spec 0 cs); [|lia].
  destruct (Z.ltb_spec 0 n); [|lia].
  rewrite Z.sub_0_r.
  pose proof (Z.div_mod (n - 1) cs ltac:(lia)) as Hdm.
  pose proof (Z.mod_pos_bound (n - 1) cs ltac:(lia)) as Hmod.
  assert (0 <= (n - 1) / cs) by (apply Z.div_pos; lia).
  nia.
Qed.

Lemma chunk_loop_zero_overlap (cs : Z) (text : str) :
  1 <= cs ->
  forall (j k fuel : nat),
    (k + j = Z.to_nat (range_len 0 (len text) cs))%nat ->
    (1 <= j <= fuel)%nat ->
    OverlapChunker.chunk_loop fuel
      {| OverlapChunker.chunk_size := cs; OverlapChunker.overlap := 0 |}
      text (Z.of_nat k * cs) []
    = Some (map (fun i => slice text (Z.of_nat i * cs) (Z.of_nat i * cs + cs))
                (seq k j)).
Proof.
  intros Hcs. induction j as [|j IH]; intros k fuel Hn Hj; [lia|].
  destruct fuel as [|fuel]; [lia|].
  assert (Hpos : 0 < len text).
  { pose proof (len_nonneg text).
    destruct (Z.eq_dec (len text) 0) as [E|]; [|lia].
    rewrite E, range_len_zero in Hn. simpl in Hn. lia. }
  destruct (range_len_index (len text) cs k Hcs Hpos ltac:(lia))
    as (Hin & Hfull & Hcov).
  cbn [OverlapChunker.chunk_loop OverlapChunker.chunk_size
       OverlapChunker.overlap].
  destruct (Z.ltb_spec (Z.of_nat k * cs) (len text)); [|lia].
  destruct j as [|j].
  - assert (Hend : len text <= Z.of_nat k * cs + cs).
    { assert (Z.of_nat (S k) = range_len 0 (len text) cs) by lia. nia. }
    rewrite Z.min_r by lia. rewrite Z.eqb_refl. simpl.
    now rewrite (slice_clamp text _ (Z.of_nat k * cs + cs)) by lia.
  - specialize (Hfull ltac:(lia)).
    rewrite Z.min_l by lia.
    destruct (Z.eqb_spec (Z.of_nat k * cs + cs) (len text)); [lia|].
    rewrite chunk_loop_acc.
    replace (Z.of_nat k * cs + cs - 0) with (Z.of_nat (S k) * cs) by lia.
    rewrite (IH (S k) fuel) by lia. reflexivity.
Qed.

(** X5.  With [overlap = 0] and a chunk size of at least 1,
    [OverlapChunker.chunk] returns exactly the chunks of
    [NaiveChunker.chunk]. *)
Theorem overlap_zero_is_naive (text : str) (cs : Z) :
  1 <= cs ->
  exists chunks,
    NaiveChunker.chunk {| NaiveChunker.chunk_size := cs |} text = Ok chunks
    /\ forall fuel, (length text < fuel)%nat ->
         OverlapChunker.chunk
           {| OverlapChunker.chunk_size := cs; OverlapChunker.overlap := 0 |}
           fuel text = Some chunks.
Proof.
  intros Hcs. eexists. split; [now apply naive_chunk_eq|].
  intros fuel Hf. unfold OverlapChunker.chunk.
  pose proof (len_nonneg text) as Hn.
  pose proof (range_len_le (len text) cs Hcs Hn) as Hle.
  destruct (Z.to_nat (range_len 0 (len text) cs)) as [|n] eqn:En.
  - assert (E : text = []).
    { destruct text as [|c text]; [reflexivity|].
      pose proof (range_len_pos (len (c :: text)) cs Hcs
                    ltac:(unfold len; simpl; lia)). lia. }
    subst text. destruct fuel; [simpl in Hf; lia | reflexivity].
  - pose proof (chunk_loop_zero_overlap cs text Hcs (S n) 0 fuel) as H.
    rewrite En in H. simpl (Z.of_nat 0 * cs) in H.
    apply H; [reflexivity|]. unfold len in *. lia.
Qed.

Lemma overlap_zero_is_naive_witness :
  1 <= 4
  /\ exists chunks,
      NaiveChunker.chunk {| NaiveChunker.chunk_size := 4 |} (py "abcdefghij")
      = Ok chunks
      /\ forall fuel, (length (py "abcdefghij") < fuel)%nat ->
           OverlapChunker.chunk
             {| OverlapChunker.chunk_size := 4; OverlapChunker.overlap := 0 |}
             fuel (py "abcdefghij") = Some chunks.
Proof.
  split; [lia|]. apply (overlap_zero_is_naive (py "abcdefghij") 4). lia.
Defined.

(** ** More on the sentence splitter *)

(** X6.  Every chunk of [SentenceAwareChunker.chunk] is at most one
    character longer than [max_size], unless it is a single sentence that is
    itself longer than [max_size], emitted alone and trimmed. *)
Theorem sentence_chunk_overshoot (self : SentenceAwareChunker.t) (text : str) :
  Forall
    (fun c =>
       len c <= SentenceAwareChunker.max_size self + 1
       \/ exists s, In s (re_split sentence_boundary text)
                    /\ SentenceAwareChunker.max_size self < len s
                    /\ c = strip s)
    (SentenceAwareChunker.chunk self text).
Proof. apply sentence_chunk_length_bound. Qed.

Lemma re_split_aux_no_terminal :
  forall text prev piece,
    Forall (fun c => is_terminal c = false) text ->
    match prev with Some p => is_terminal p = false | None => True end ->
    re_split_aux sentence_boundary prev piece O text = [rev piece ++ text].
Proof.
  induction text as [|c rest IH]; intros prev piece Ht Hp.
  - simpl. now rewrite app_nil_r.
  - inversion Ht as [|? ? Hc Hrest]; subst.
    assert (E : sentence_boundary prev (c :: rest) = O).
    { destruct prev as [p|]; [|reflexivity]. simpl. now rewrite Hp. }
    cbn [re_split_aux]. rewrite E.
    rewrite IH by assumption. simpl. now rewrite <- app_assoc.
Qed.

Lemma strip_space_cons (s : str) : strip (py " " ++ s) = strip s.
Proof. reflexivity. Qed.

(** X7.  A non-empty text without '.', '!' or '?' is not split: whatever the
    sizes, [SentenceAwareChunker.chunk] returns one chunk, the trimmed text.
    For a text of whitespace only that one chunk is the empty string. *)
Theorem sentence_chunk_without_terminator
        (self : SentenceAwareChunker.t) (text : str) :
  text <> [] ->
  Forall (fun c => is_terminal c = false) text ->
  SentenceAwareChunker.chunk self text = [strip text]
  /\ (forallb isspace text = true -> SentenceAwareChunker.chunk self text = [[]]).
Proof.
  intros Hne Hterm.
  assert (H : SentenceAwareChunker.chunk self text = [strip text]).
  { unfold SentenceAwareChunker.chunk, re_split.
    rewrite re_split_aux_no_terminal by (exact Hterm || exact I).
    destruct text as [|c t]; [contradiction|].
    cbn [rev app fold_left]. unfold SentenceAwareChunker.step.
    cbn [truthy]. rewrite andb_false_r.
    destruct (_ <=? _); [reflexivity|].
    destruct (_ <=? _); [|reflexivity].
    cbn [app truthy]. now rewrite strip_space_cons. }
  split; [exact H|]. intros Hws. now rewrite H, strip_all_space.
Qed.

Lemma sentence_chunk_without_terminator_witness :
  py "  no end " <> []
  /\ Forall (fun c => is_terminal c = false) (py "  no end ")
  /\ SentenceAwareChunker.chunk (SentenceAwareChunker.init None None)
       (py "  no end ")
     = [strip (py "  no end ")]
  /\ (forallb isspace (py "  no end ") = true ->
      SentenceAwareChunker.chunk (SentenceAwareChunker.init None None)
        (py "  no end ") = [[]]).
Proof.
  assert (H1 : py "  no end " <> []) by discriminate.
  assert (H2 : Forall (fun c => is_terminal c = false) (py "  no end "))
    by (repeat constructor).
  split; [exact H1|]. split; [exact H2|].
  exact (sentence_chunk_without_terminator
           (SentenceAwareChunker.init None None) (py "  no end ") H1 H2).
Defined.

Lemma terminal_not_space (c : char) : is_terminal c = true -> isspace c = false.
Proof.
  unfold is_terminal. intros H.
  apply orb_prop in H as [H|H]; [apply orb_prop in H as [H|H]|];
    apply N.eqb_eq in H; subst c; reflexivity.
Qed.

Lemma remove_ws_cons_not_nil (c : char) (s : str) :
  remove_ws s <> [] -> remove_ws (c :: s) <> [].
Proof.
  intros H. rewrite remove_ws_cons. destruct (isspace c); [exact H | discriminate].
Qed.

Lemma remove_ws_rev_not_nil (s : str) :
  remove_ws s <> [] -> remove_ws (rev s) <> [].
Proof.
  intros H E. apply H. rewrite remove_ws_rev in E.
  apply (f_equal (@rev char)) in E. now rewrite rev_involutive in E.
Qed.

(** The pieces cut by the sentence pattern from a text with a
    non-whitespace character: each is empty or holds a non-whitespace
    character.  The four cases are the states of the scan: a piece with
    content, a fresh piece after a separator, the leading whitespace of the
    text, and the inside of a separator. *)
Lemma sentence_pieces_aux :
  forall text prev piece skip,
    (skip = O /\ remove_ws piece <> [])
    \/ (skip = O /\ piece = []
        /\ match prev with Some p => isspace p = true | None => True end
        /\ run_length isspace text = O)
    \/ (skip = O /\ remove_ws piece = []
        /\ match prev with Some p => isspace p = true | None => True end
        /\ remove_ws text <> [])
    \/ (piece = [] /\ skip = run_length isspace text /\ skip <> O) ->
    Forall (fun p => p = [] \/ remove_ws p <> [])
           (re_split_aux sentence_boundary prev piece skip text).
Proof.
  assert (Hprev : forall prev text,
             match prev with Some p => isspace p = true | None => True end ->
             sentence_boundary prev text = O).
  { intros [p|] text Hp; [|reflexivity]. simpl.
    destruct (is_terminal p) eqn:E; [|reflexivity].
    apply terminal_not_space in E. congruence. }
  induction text as [|c rest IH]; intros prev piece skip H.
  - simpl. constructor; [|constructor].
    destruct H as [[_ H]|[(_ & -> & _)|[(_ & _ & _ & H)|(-> & _)]]].
    + right. now apply remove_ws_rev_not_nil.
    + now left.
    + now rewrite remove_ws_nil in H.
    + now left.
  - assert (Hnext : forall k,
               isspace c = true -> k = run_length isspace rest ->
               Forall (fun p => p = [] \/ remove_ws p <> [])
                      (re_split_aux sentence_boundary (Some c) [] k rest)).
    { intros k Hc Hk. apply IH. destruct k as [|k].
      - right. left. split; [reflexivity|]. split; [reflexivity|].
        split; [exact Hc | now symmetry].
      - right. right. right. split; [reflexivity|].
        split; [exact Hk | discriminate]. }
    destruct H as [[-> H]|[(-> & -> & Hp & Hrun)|[(-> & Hpiece & Hp & Ht)
                                                  |(-> & -> & Hk)]]].
    + cbn [re_split_aux].
      destruct (sentence_boundary prev (c :: rest)) as [|k] eqn:E.
      * apply IH. left. split; [reflexivity|].
        now apply remove_ws_cons_not_nil.
      * constructor; [right; now apply remove_ws_rev_not_nil|].
        destruct prev as [p|]; [|discriminate]. simpl in E.
        destruct (is_terminal p); [|discriminate].
        destruct (isspace c) eqn:Hc; [|discriminate].
        injection E as <-. now apply Hnext.
    + cbn [re_split_aux]. rewrite Hprev by exact Hp.
      simpl in Hrun. destruct (isspace c) eqn:Hc; [discriminate|].
      apply IH. left. split; [reflexivity|].
      rewrite remove_ws_cons, Hc. discriminate.
    + cbn [re_split_aux]. rewrite Hprev by exact Hp.
      apply IH. rewrite remove_ws_cons in Ht.
      destruct (isspace c) eqn:Hc.
      * right. right. left. split; [reflexivity|].
        split; [now rewrite remove_ws_cons, Hc|].
        split; [reflexivity | exact Ht].
      * left. split; [reflexivity|]. rewrite remove_ws_cons, Hc. discriminate.
    + simpl in Hk |- *. destruct (isspace c) eqn:Hc; [|contradiction].
      now apply Hnext.
Qed.

Lemma sentence_pieces (text : str) :
  remove_ws text <> [] ->
  Forall (fun p => p = [] \/ remove_ws p <> [])
         (re_split sentence_boundary text).
Proof.
  intros H. apply sentence_pieces_aux.
  right. right. left. split; [reflexivity|]. split; [reflexivity|].
  split; [exact I | exact H].
Qed.

Lemma sentence_step_no_empty self st s :
  0 <= SentenceAwareChunker.target_size self ->
  s = [] \/ remove_ws s <> [] ->
  Forall (fun c => c <> []) (fst st) ->
  snd st = [] \/ remove_ws (snd st) <> [] ->
  Forall (fun c => c <> []) (fst (SentenceAwareChunker.step self st s))
  /\ (snd (SentenceAwareChunker.step self st s) = []
      \/ remove_ws (snd (SentenceAwareChunker.step self st s)) <> []).
Proof.
  intros Ht Hs Hchunks Hcur. destruct st as [chunks cur]. cbn [fst snd] in *.
  unfold SentenceAwareChunker.step.
  destruct cur as [|c cur]; cbn [truthy]; rewrite ?andb_false_r, ?andb_true_r.
  - destruct (Z.leb_spec (len (@nil char) + len s)
                         (SentenceAwareChunker.target_size self)) as [Hle|Hgt];
      [now split|].
    destruct (_ <=? _); [|now split].
    split; [exact Hchunks|]. cbn [fst snd app]. right.
    destruct Hs as [->|Hs]; [unfold len in Hgt; simpl in Hgt; lia|].
    rewrite remove_ws_app. exact Hs.
  - destruct Hcur as [Hcur|Hcur]; [discriminate|].
    assert (Hflush : Forall (fun x => x <> []) (chunks ++ [strip (c :: cur)])).
    { apply Forall_app. split; [exact Hchunks|]. constructor; [|constructor].
      intros E. apply Hcur. now rewrite <- remove_ws_strip, E. }
    assert (Hjoin : remove_ws ((c :: cur) ++ py " " ++ s) <> []).
    { rewrite remove_ws_app. intros E. apply app_eq_nil in E as [E _].
      contradiction. }
    repeat match goal with |- context [if ?b then _ else _] => destruct b end;
      cbn [fst snd]; split; auto.
Qed.

Lemma sentence_fold_no_empty self ss :
  0 <= SentenceAwareChunker.target_size self ->
  forall st,
    Forall (fun p => p = [] \/ remove_ws p <> []) ss ->
    Forall (fun c => c <> []) (fst st) ->
    snd st = [] \/ remove_ws (snd st) <> [] ->
    Forall (fun c => c <> [])
           (fst (fold_left (SentenceAwareChunker.step self) ss st))
    /\ (snd (fold_left (SentenceAwareChunker.step self) ss st) = []
        \/ remove_ws (snd (fold_left (SentenceAwareChunker.step self) ss st))
           <> []).
Proof.
  intros Ht. induction ss as [|s ss IH]; intros st Hss H1 H2; simpl;
    [now split|].
  inversion Hss as [|? ? Hs Hss']; subst.
  destruct (sentence_step_no_empty self st s Ht Hs H1 H2) as [H1' H2'].
  now apply IH.
Qed.

Lemma sentence_chunks_no_empty self text :
  0 <= SentenceAwareChunker.target_size self ->
  remove_ws text <> [] ->
  Forall (fun c => c <> []) (SentenceAwareChunker.chunk self text).
Proof.
  intros Ht Hc. pose proof (sentence_pieces text Hc) as Hp.
  unfold SentenceAwareChunker.chunk.
  destruct (sentence_fold_no_empty self _ Ht ([], []) Hp
              (Forall_nil _) (or_introl eq_refl)) as [H1 H2].
  destruct (fold_left _ _ _) as [chunks cur]. cbn [fst snd] in *.
  destruct cur as [|c cur]; cbn [truthy]; [exact H1|].
  apply Forall_app. split; [exact H1|]. constructor; [|constructor].
  destruct H2 as [H2|H2]; [discriminate|].
  intros E. apply H2. now rewrite <- remove_ws_strip, E.
Qed.

(** X8.  For a target size of at least 0 and a text with a non-whitespace
    character, [SentenceAwareChunker.chunk] returns no empty chunk. *)
Theorem sentence_chunks_not_empty (self : SentenceAwareChunker.t) (text : str) :
  0 <= SentenceAwareChunker.target_size self ->
  (exists c, In c text /\ isspace c = false) ->
  Forall (fun c => c <> []) (SentenceAwareChunker.chunk self text).
Proof.
  intros Ht Hc. apply sentence_chunks_no_empty; [exact Ht|].
  now apply remove_ws_not_nil.
Qed.

Lemma sentence_chunks_not_empty_witness :
  0 <= SentenceAwareChunker.target_size (SentenceAwareChunker.init (Some 5) (Some 9))
  /\ (exists c, In c (py " One two.  Three! ") /\ isspace c = false)
  /\ Forall (fun c => c <> [])
       (SentenceAwareChunker.chunk (SentenceAwareChunker.init (Some 5) (Some 9))
          (py " One two.  Three! ")).
Proof.
  assert (H1 : 0 <= SentenceAwareChunker.target_size
                      (SentenceAwareChunker.init (Some 5) (Some 9)))
    by (simpl; lia).
  assert (H2 : exists c, In c (py " One two.  Three! ") /\ isspace c = false).
  { exists 79%N. split; [right; left; reflexivity | reflexivity]. }
  split; [exact H1|]. split; [exact H2|].
  exact (sentence_chunks_not_empty _ _ H1 H2).
Defined.

(** ** More on the paragraph splitter *)

Lemma edged_strip (s : str) : s <> [] -> strip s = s -> edged s.
Proof.
  intros Hne Hs. destruct (strip_ends s) as [Hh Hl]. rewrite Hs in Hh, Hl.
  split.
  - destruct s; [contradiction | exact Hh].
  - destruct (rev s) eqn:E; [|exact Hl].
    apply (f_equal (@rev char)) in E. rewrite rev_involutive in E.
    now apply Hne.
Qed.

Lemma edged_trimmed (s : str) : edged s -> s <> [] /\ strip s = s.
Proof.
  intros [Hh Hl]. split; [destruct s; [contradiction | discriminate]|].
  unfold strip, rstrip. rewrite (lstrip_fixed s).
  - rewrite (lstrip_fixed (rev s)); [apply rev_involutive|].
    destruct (rev s); [exact I | exact Hl].
  - destruct s; [exact I | exact Hh].
Qed.

Lemma edged_join (a sep b : str) : edged a -> edged b -> edged (a ++ sep ++ b).
Proof.
  intros [Ha _] [_ Hb]. split.
  - destruct a; [contradiction | exact Ha].
  - rewrite !rev_app_distr. destruct (rev b); [contradiction | exact Hb].
Qed.

Lemma strip_edged (p : str) : strip p <> [] -> edged (strip p).
Proof. intros H. apply edged_strip; [exact H | apply strip_idem]. Qed.

Lemma edged_not_space (s : str) : edged s -> remove_ws s <> [].
Proof.
  intros [Hh _]. destruct s as [|c s]; [contradiction|].
  rewrite remove_ws_cons, Hh. discriminate.
Qed.

Lemma sentence_chunks_edged self text :
  0 <= SentenceAwareChunker.target_size self ->
  remove_ws text <> [] ->
  Forall edged (SentenceAwareChunker.chunk self text).
Proof.
  intros Ht Hc.
  pose proof (sentence_chunks_no_empty self text Ht Hc) as Hne.
  pose proof (sentence_chunks_trimmed self text) as Htr.
  rewrite Forall_forall in *. intros c Hin.
  apply edged_strip; [now apply Hne | now apply Htr].
Qed.

Lemma paragraph_merge_edged self st pc :
  edged pc ->
  Forall edged (fst st) -> (snd st = [] \/ edged (snd st)) ->
  Forall edged (fst (ParagraphAwareChunker.merge self st pc))
  /\ (snd (ParagraphAwareChunker.merge self st pc) = []
      \/ edged (snd (ParagraphAwareChunker.merge self st pc))).
Proof.
  intros Hpc Hchunks Hcur. destruct st as [chunks cur]. cbn [fst snd] in *.
  unfold ParagraphAwareChunker.merge.
  destruct cur as [|c cur]; cbn [truthy].
  - destruct (_ <=? _); cbn [fst snd]; split; auto.
  - destruct Hcur as [Hcur|Hcur]; [discriminate|].
    destruct (_ <=? _); cbn [fst snd]; split; auto.
    + right. now apply edged_join.
    + apply Forall_app. split; [exact Hchunks|]. now constructor.
Qed.

Lemma paragraph_merge_fold_edged self pcs :
  forall st,
    Forall edged pcs ->
    Forall edged (fst st) -> (snd st = [] \/ edged (snd st)) ->
    Forall edged (fst (fold_left (ParagraphAwareChunker.merge self) pcs st))
    /\ (snd (fold_left (ParagraphAwareChunker.merge self) pcs st) = []
        \/ edged (snd (fold_left (ParagraphAwareChunker.merge self) pcs st))).
Proof.
  induction pcs as [|pc pcs IH]; intros st Hpcs H1 H2; cbn [fold_left];
    [now split|].
  inversion Hpcs as [|? ? Hpc Hpcs']; subst.
  destruct (paragraph_merge_edged self st pc Hpc H1 H2) as [H1' H2'].
  now apply IH.
Qed.

Lemma paragraph_step_edged self st p :
  0 <= ParagraphAwareChunker.target_size self ->
  Forall edged (fst st) -> (snd st = [] \/ edged (snd st)) ->
  Forall edged (fst (ParagraphAwareChunker.step self st p))
  /\ (snd (ParagraphAwareChunker.step self st p) = []
      \/ edged (snd (ParagraphAwareChunker.step self st p))).
Proof.
  intros Ht Hchunks Hcur. unfold ParagraphAwareChunker.step.
  destruct (strip p) as [|c q] eqn:E; cbn [truthy negb]; [now split|].
  assert (Hp : edged (c :: q)).
  { rewrite <- E. apply strip_edged. rewrite E. discriminate. }
  destruct st as [chunks cur].
  destruct (len (c :: q) >? _).
  - apply paragraph_merge_fold_edged; [|exact Hchunks|exact Hcur].
    apply sentence_chunks_edged; [exact Ht | now apply edged_not_space].
  - apply (paragraph_merge_edged self (chunks, cur) (c :: q) Hp Hchunks Hcur).
Qed.

(** X9.  For a target size of at least 0, every chunk returned by
    [ParagraphAwareChunker.chunk] is non-empty and trimmed: it neither
    starts nor ends with whitespace. *)
Theorem paragraph_chunks_are_trimmed (self : ParagraphAwareChunker.t) (text : str) :
  0 <= ParagraphAwareChunker.target_size self ->
  Forall (fun c => c <> [] /\ strip c = c)
         (ParagraphAwareChunker.chunk self text).
Proof.
  intros Ht. eapply Forall_impl; [intros c; apply edged_trimmed|].
  unfold ParagraphAwareChunker.chunk.
  assert (Hfold : forall ps st,
             Forall edged (fst st) -> (snd st = [] \/ edged (snd st)) ->
             Forall edged
               (fst (fold_left (ParagraphAwareChunker.step self) ps st))
             /\ (snd (fold_left (ParagraphAwareChunker.step self) ps st) = []
                 \/ edged
                      (snd (fold_left (ParagraphAwareChunker.step self) ps st)))).
  { induction ps as [|p ps IH]; intros st H1 H2; simpl; [now split|].
    destruct (paragraph_step_edged self st p Ht H1 H2) as [H1' H2'].
    now apply IH. }
  destruct (Hfold (re_split paragraph_break text) ([], [])
                  (Forall_nil _) (or_introl eq_refl)) as [H1 H2].
  destruct (fold_left _ _ _) as [chunks cur]. cbn [fst snd] in *.
  destruct cur as [|c cur]; cbn [truthy]; [exact H1|].
  apply Forall_app. split; [exact H1|].
  destruct H2 as [H2|H2]; [discriminate | now constructor].
Qed.

Lemma paragraph_chunks_are_trimmed_witness :
  0 <= ParagraphAwareChunker.target_size (ParagraphAwareChunker.init (Some 10))
  /\ Forall (fun c => c <> [] /\ strip c = c)
       (ParagraphAwareChunker.chunk (ParagraphAwareChunker.init (Some 10))
          (py " One two.  Three! ")).
Proof.
  assert (H : 0 <= ParagraphAwareChunker.target_size
                     (ParagraphAwareChunker.init (Some 10))) by (simpl; lia).
  split; [exact H|]. exact (paragraph_chunks_are_trimmed _ _ H).
Defined.

Lemma paragraph_merge_bound (self : ParagraphAwareChunker.t)
      (big : str -> Prop) st pc :
  let tg := ParagraphAwareChunker.target_size self in
  let held c := c = [] \/ len c <= tg + 2 \/ big c in
  let bounded c := len c <= tg + 2 \/ big c in
  (tg < len pc -> big pc) ->
  Forall bounded (fst st) -> held (snd st) ->
  Forall bounded (fst (ParagraphAwareChunker.merge self st pc))
  /\ held (snd (ParagraphAwareChunker.merge self st pc)).
Proof.
  intros tg held bounded Hpc Hchunks Hcur. destruct st as [chunks cur].
  cbn [fst snd] in *. unfold ParagraphAwareChunker.merge. fold tg.
  assert (Hfresh : held pc).
  { destruct (Z.le_gt_cases (len pc) tg); [right; left; lia|].
    right. right. apply Hpc. lia. }
  destruct cur as [|c cur]; cbn [truthy].
  - destruct (_ <=? _); cbn [fst snd]; now split.
  - assert (Hflush : Forall bounded (chunks ++ [c :: cur])).
    { apply Forall_app. split; [exact Hchunks|]. constructor; [|constructor].
      destruct Hcur as [H|[H|H]]; [discriminate | now left | now right]. }
    destruct (Z.leb_spec (len (c :: cur) + len pc) tg); cbn [fst snd];
      [|now split].
    split; [exact Hchunks|]. right. left.
    rewrite !len_app. change (len blank_line) with 2. lia.
Qed.

Lemma paragraph_merge_fold_bound (self : ParagraphAwareChunker.t)
      (big : str -> Prop) pcs :
  let tg := ParagraphAwareChunker.target_size self in
  let held c := c = [] \/ len c <= tg + 2 \/ big c in
  let bounded c := len c <= tg + 2 \/ big c in
  forall st,
    Forall (fun pc => tg < len pc -> big pc) pcs ->
    Forall bounded (fst st) -> held (snd st) ->
    Forall bounded (fst (fold_left (ParagraphAwareChunker.merge self) pcs st))
    /\ held (snd (fold_left (ParagraphAwareChunker.merge self) pcs st)).
Proof.
  intros tg held bounded.
  induction pcs as [|pc pcs IH]; intros st Hpcs H1 H2; cbn [fold_left];
    [now split|].
  inversion Hpcs as [|? ? Hpc Hpcs']; subst.
  destruct (paragraph_merge_bound self big st pc Hpc H1 H2) as [H1' H2'].
  now apply IH.
Qed.

(** X10.  Every chunk of [ParagraphAwareChunker.chunk] is at most two
    characters longer than [target_size] (the blank line of a join is not
    counted by the size check), unless it is, alone, one of the chunks that
    the sentence splitter made of a paragraph longer than [target_size]. *)
Theorem paragraph_chunk_overshoot (self : ParagraphAwareChunker.t) (text : str) :
  Forall
    (fun c =>
       len c <= ParagraphAwareChunker.target_size self + 2
       \/ exists p,
           In p (re_split paragraph_break text)
           /\ ParagraphAwareChunker.target_size self < len (strip p)
           /\ In c (SentenceAwareChunker.chunk
                      (SentenceAwareChunker.init
                         (Some (ParagraphAwareChunker.target_size self)) None)
                      (strip p)))
    (ParagraphAwareChunker.chunk self text).
Proof.
  unfold ParagraphAwareChunker.chunk.
  set (ps := re_split paragraph_break text).
  set (tg := ParagraphAwareChunker.target_size self).
  set (big := fun c : str =>
         exists p, In p ps /\ tg < len (strip p)
                   /\ In c (SentenceAwareChunker.chunk
                              (SentenceAwareChunker.init (Some tg) None)
                              (strip p))).
  set (held := fun c : str => c = [] \/ len c <= tg + 2 \/ big c).
  set (bounded := fun c : str => len c <= tg + 2 \/ big c).
  assert (Hstep : forall st p,
             In p ps -> Forall bounded (fst st) -> held (snd st) ->
             Forall bounded (fst (ParagraphAwareChunker.step self st p))
             /\ held (snd (ParagraphAwareChunker.step self st p))).
  { intros st p Hp H1 H2. unfold ParagraphAwareChunker.step. fold tg.
    destruct (strip p) as [|c q] eqn:E; cbn [truthy negb]; [now split|].
    destruct st as [chunks cur].
    destruct (Z.gtb_spec (len (c :: q)) tg) as [Hgt|Hle].
    - apply (paragraph_merge_fold_bound self big); [|exact H1|exact H2].
      apply Forall_forall. intros pc Hpc _.
      exists p. rewrite E. repeat split; [exact Hp | lia | exact Hpc].
    - apply (paragraph_merge_bound self big (chunks, cur) (c :: q));
        [fold tg; lia | exact H1 | exact H2]. }
  assert (Hfold : forall qs st,
             incl qs ps -> Forall bounded (fst st) -> held (snd st) ->
             Forall bounded
               (fst (fold_left (ParagraphAwareChunker.step self) qs st))
             /\ held (snd (fold_left (ParagraphAwareChunker.step self) qs st))).
  { induction qs as [|q qs IH]; intros st Hincl H1 H2; cbn [fold_left];
      [now split|].
    destruct (Hstep st q (Hincl q (or_introl eq_refl)) H1 H2) as [H1' H2'].
    apply IH; [|exact H1'|exact H2'].
    intros x Hx. apply Hincl. now right. }
  destruct (Hfold ps ([], []) (incl_refl _) (Forall_nil _) (or_introl eq_refl))
    as [H1 H2].
  destruct (fold_left _ _ _) as [chunks cur]. cbn [fst snd] in *.
  destruct cur as [|c cur]; cbn [truthy]; [exact H1|].
  apply Forall_app. split; [exact H1|]. constructor; [|constructor].
  destruct H2 as [H2|[H2|H2]]; [discriminate | now left | now right].
Qed.

(** ** Paragraphs that fit together *)

Lemma place_fitting (mx target : Z) (rest : list str) :
  forall chunks cur,
    cur <> [] ->
    len (cur ++ concat (map (fun q => blank_line ++ q) rest)) <= target ->
    fold_left (place_paragraph mx target) rest (chunks, cur)
    = (chunks, cur ++ concat (map (fun q => blank_line ++ q) rest)).
Proof.
  induction rest as [|p rest IH]; intros chunks cur Hne Hlen; cbn [fold_left].
  - cbn [map concat]. now rewrite app_nil_r.
  - cbn [map concat] in *. rewrite !len_app in Hlen.
    change (len blank_line) with 2 in Hlen.
    pose proof (len_nonneg (concat (map (fun q => blank_line ++ q) rest))).
    pose proof (len_nonneg cur).
    unfold place_paragraph at 2.
    destruct (Z.gtb_spec (len p) target); [lia|].
    unfold fit_or_flush. cbn [fst snd].
    destruct (Z.leb_spec (len cur + len p) target); [|lia].
    destruct cur as [|c cur]; [contradiction|]. cbn [truthy].
    rewrite IH.
    + now rewrite <- !app_assoc.
    + discriminate.
    + rewrite !len_app. change (len blank_line) with 2. lia.
Qed.

(** X11.  When the trimmed, non-empty paragraphs of the text, joined by
    blank lines, fit in [target_size], [ParagraphAwareChunker.chunk] returns
    them as one chunk, joined by blank lines. *)
Theorem paragraphs_that_fit_stay_together (target : Z) (text : str) :
  let ps := filter truthy (map strip (re_split paragraph_break text)) in
  ps <> [] ->
  len (join_blank ps) <= target ->
  ParagraphAwareChunker.chunk
    {| ParagraphAwareChunker.target_size := target |} text
  = [join_blank ps].
Proof.
  intros ps Hne Hlen. unfold ParagraphAwareChunker.chunk.
  rewrite paragraph_fold_is_place. cbn [ParagraphAwareChunker.target_size].
  fold ps. destruct ps as [|p rest] eqn:Eps; [contradiction|].
  assert (Hp : p <> []).
  { assert (Hin : In p ps) by (rewrite Eps; now left).
    apply filter_In in Hin as [_ Hin]. now destruct p. }
  cbn [join_blank] in *. cbn [fold_left].
  assert (Hfirst : place_paragraph 1200 target ([], []) p = ([], p)).
  { rewrite len_app in Hlen.
    pose proof (len_nonneg (concat (map (fun q => blank_line ++ q) rest))).
    unfold place_paragraph.
    destruct (Z.gtb_spec (len p) target); [lia|].
    unfold fit_or_flush. cbn [fst snd truthy].
    destruct (Z.leb_spec (len (@nil char) + len p) target); [reflexivity|].
    unfold len in *. simpl in *. lia. }
  rewrite Hfirst, place_fitting by assumption.
  destruct p as [|c p]; [contradiction | reflexivity].
Qed.

Lemma paragraphs_that_fit_stay_together_witness :
  filter truthy (map strip (re_split paragraph_break
                              [65; 46; 10; 10; 10; 32; 66; 46; 10]%N)) <> []
  /\ len (join_blank
            (filter truthy
               (map strip (re_split paragraph_break
                             [65; 46; 10; 10; 10; 32; 66; 46; 10]%N)))) <= 10
  /\ ParagraphAwareChunker.chunk
       {| ParagraphAwareChunker.target_size := 10 |}
       [65; 46; 10; 10; 10; 32; 66; 46; 10]%N
     = [join_blank
          (filter truthy
             (map strip (re_split paragraph_break
                           [65; 46; 10; 10; 10; 32; 66; 46; 10]%N)))].
Proof.
  assert (H1 : filter truthy
                 (map strip (re_split paragraph_break
                               [65; 46; 10; 10; 10; 32; 66; 46; 10]%N)) <> [])
    by (vm_compute; discriminate).
  assert (H2 : len (join_blank
                      (filter truthy
                         (map strip (re_split paragraph_break
                                       [65; 46; 10; 10; 10; 32; 66; 46; 10]%N))))
               <= 10)
    by (vm_compute; discriminate).
  split; [exact H1|]. split; [exact H2|].
  exact (paragraphs_that_fit_stay_together 10 _ H1 H2).
Defined.

(** ** More on the analyzer *)

Lemma nth_error_lt {A : Type} (l : list A) (n : nat) (x : A) :
  nth_error l n = Some x -> (n < length l)%nat.
Proof. intros H. apply nth_error_Some. rewrite H. discriminate. Qed.

Lemma in_analyze_chunks lower self chunks p :
  In p (ChunkAnalyzer.analyze_chunks lower self chunks) <->
  exists i c,
    0 <= i < len chunks /\ nth_error chunks (Z.to_nat i) = Some c
    /\ In p (ChunkAnalyzer.analyze_chunk lower self chunks i c).
Proof.
  unfold ChunkAnalyzer.analyze_chunks. rewrite in_flat_map. split.
  - intros ([i c] & Hic & Hp). apply in_enumerate in Hic as [Hi Hc].
    now exists i, c.
  - intros (i & c & Hi & Hc & Hp). exists (i, c). split; [|exact Hp].
    now apply in_enumerate.
Qed.

Lemma getitem_prev (chunks : list str) (k : Z) :
  0 < k <= len chunks ->
  exists prev,
    nth_error chunks (Z.to_nat (k - 1)) = Some prev
    /\ getitem chunks (k - 1) = prev.
Proof.
  intros Hk. unfold getitem.
  assert (Hf : (k - 1 <? 0) = false) by (apply Z.ltb_ge; lia).
  rewrite Hf. cbv beta iota zeta. rewrite Hf.
  destruct (nth_error chunks (Z.to_nat (k - 1))) as [prev|] eqn:E.
  - exists prev. split; [reflexivity|]. now apply nth_error_nth.
  - apply nth_error_None in E. unfold len in Hk. lia.
Qed.

Lemma sorted_constant (v : Z) (l : list Z) :
  Forall (fun x => x = v) l -> StronglySorted Z.le l.
Proof.
  induction 1 as [|x l Hx Hl IH]; constructor; [exact IH|].
  subst x. eapply Forall_impl; [|exact Hl]. cbn beta. intros; lia.
Qed.

Lemma sorted_app (l1 l2 : list Z) :
  StronglySorted Z.le l1 -> StronglySorted Z.le l2 ->
  (forall x y, In x l1 -> In y l2 -> x <= y) ->
  StronglySorted Z.le (l1 ++ l2).
Proof.
  induction 1 as [|x l1 Hs IH Hx]; intros H2 Hle; simpl; [exact H2|].
  constructor.
  - apply IH; [exact H2|]. intros a b Ha Hb. apply Hle; [now right | exact Hb].
  - apply Forall_app. split; [exact Hx|].
    apply Forall_forall. intros y Hy. apply Hle; [now left | exact Hy].
Qed.

Lemma analyze_from_sorted lower self chunks (l : list str) :
  forall s : nat,
    let problems :=
      flat_map (fun ic => ChunkAnalyzer.analyze_chunk lower self chunks
                            (fst ic) (snd ic))
               (combine (map Z.of_nat (seq s (length l))) l) in
    StronglySorted Z.le (map chunk_index problems)
    /\ Forall (fun p => Z.of_nat s <= chunk_index p < Z.of_nat s + len l)
              problems.
Proof.
  induction l as [|c l IH]; intros s; cbn zeta.
  - simpl. split; constructor.
  - cbn [length seq map combine flat_map fst snd].
    destruct (IH (S s)) as [Hsorted Hrange]. cbn zeta in Hsorted, Hrange.
    assert (Hhere : Forall (fun p => chunk_index p = Z.of_nat s)
                      (ChunkAnalyzer.analyze_chunk lower self chunks
                         (Z.of_nat s) c)).
    { apply Forall_forall. intros p Hp.
      now apply analyze_chunk_index in Hp. }
    split.
    + rewrite map_app. apply sorted_app; [|exact Hsorted|].
      * apply (sorted_constant (Z.of_nat s)).
        apply Forall_forall. intros x Hx.
        apply in_map_iff in Hx as (p & <- & Hp).
        rewrite Forall_forall in Hhere. now apply Hhere.
      * intros x y Hx Hy.
        apply in_map_iff in Hx as (p & <- & Hp).
        apply in_map_iff in Hy as (q & <- & Hq).
        rewrite Forall_forall in Hhere, Hrange.
        rewrite (Hhere p Hp). specialize (Hrange q Hq). lia.
    + apply Forall_app. split.
      * eapply Forall_impl; [|exact Hhere]. cbn beta. intros p ->.
        unfold len. simpl. lia.
      * eapply Forall_impl; [|exact Hrange]. cbn beta. intros p Hp.
        unfold len in *. simpl. lia.
Qed.

(** X12.  The problems returned by [ChunkAnalyzer.analyze_chunks] come in
    ascending order of chunk index, and every index is that of a chunk of
    the input. *)
Theorem analyze_chunks_indices (lower : str -> str) (self : ChunkAnalyzer.t)
        (chunks : list str) :
  StronglySorted Z.le
    (map chunk_index (ChunkAnalyzer.analyze_chunks lower self chunks))
  /\ Forall (fun p => 0 <= chunk_index p < len chunks)
            (ChunkAnalyzer.analyze_chunks lower self chunks).
Proof.
  destruct (analyze_from_sorted lower self chunks chunks 0) as [H1 H2].
  split; [exact H1|]. exact H2.
Qed.

Lemma analyze_chunk_reference_loss lower self chunks i chunk :
  (exists p,
      In p (ChunkAnalyzer.analyze_chunk lower self chunks i chunk)
      /\ problem_type p = py "Reference Loss")
  <-> exists phrase,
      In phrase (ChunkAnalyzer.reference_phrases self)
      /\ contains (lower chunk) phrase = true.
Proof.
  unfold ChunkAnalyzer.analyze_chunk. split.
  - intros (p & H & Ht).
    apply in_app_or in H as [H|H]; [|apply in_app_or in H as [H|H]].
    + destruct (_ && _); [|contradiction].
      destruct H as [<-|[]]. cbn [problem_type] in Ht.
      vm_compute in Ht. discriminate.
    + apply in_flat_map in H as (phrase & Hin & H).
      destruct (contains _ _) eqn:E; [|contradiction]. now exists phrase.
    + destruct (startswith_any _ _); [|contradiction].
      destruct (_ || _); [|contradiction].
      destruct H as [<-|[]]. cbn [problem_type] in Ht.
      vm_compute in Ht. discriminate.
  - intros (phrase & Hin & Hc). eexists. split.
    + apply in_or_app. right. apply in_or_app. left.
      apply in_flat_map. exists phrase. split; [exact Hin|].
      rewrite Hc. left. reflexivity.
    + reflexivity.
Qed.

Lemma analyze_chunk_structural lower self chunks i chunk :
  (exists p,
      In p (ChunkAnalyzer.analyze_chunk lower self chunks i chunk)
      /\ problem_type p = py "Structural Destruction")
  <-> startswith_any (strip chunk) ChunkAnalyzer.list_markers = true
      /\ (i =? 0) || negb (endswith (rstrip (getitem chunks (i - 1))) (py ":"))
         = true.
Proof.
  unfold ChunkAnalyzer.analyze_chunk. split.
  - intros (p & H & Ht).
    apply in_app_or in H as [H|H]; [|apply in_app_or in H as [H|H]].
    + destruct (_ && _); [|contradiction].
      destruct H as [<-|[]]. cbn [problem_type] in Ht.
      vm_compute in Ht. discriminate.
    + apply in_flat_map in H as (phrase & Hin & H).
      destruct (contains _ _); [|contradiction].
      destruct H as [<-|[]]. cbn [problem_type] in Ht.
      vm_compute in Ht. discriminate.
    + destruct (startswith_any _ _); [|contradiction].
      destruct (_ || _); [now split | contradiction].
  - intros [-> ->]. eexists. split.
    + apply in_or_app. right. apply in_or_app. right. left. reflexivity.
    + reflexivity.
Qed.

(** X13.  [ChunkAnalyzer.analyze_chunks] reports a Reference Loss at chunk
    [i] exactly when chunk [i] exists and its lower-cased content contains
    one of the five reference phrases. *)
Theorem analyze_chunks_reference_loss (lower : str -> str)
        (chunks : list str) (i : Z) :
  (exists p,
      In p (ChunkAnalyzer.analyze_chunks lower ChunkAnalyzer.init chunks)
      /\ chunk_index p = i
      /\ problem_type p = py "Reference Loss")
  <->
  (0 <= i
   /\ exists c phrase,
       nth_error chunks (Z.to_nat i) = Some c
       /\ In phrase
            [py "as mentioned above"; py "see table";
             py "following the previous"; py "as described earlier";
             py "refer to section"]
       /\ contains (lower c) phrase = true).
Proof.
  split.
  - intros (p & Hin & Hi & Ht).
    apply in_analyze_chunks in Hin as (k & c & Hk & Hc & Hp).
    pose proof (analyze_chunk_index _ _ _ _ _ _ Hp) as Hidx.
    assert (Hrl : exists q,
               In q (ChunkAnalyzer.analyze_chunk lower ChunkAnalyzer.init
                       chunks k c)
               /\ problem_type q = py "Reference Loss") by eauto.
    apply analyze_chunk_reference_loss in Hrl as (phrase & Hph & Hcont).
    subst i. rewrite Hidx. split; [lia|]. now exists c, phrase.
  - intros (Hi & c & phrase & Hc & Hph & Hcont).
    assert (Hrl : exists phrase,
               In phrase (ChunkAnalyzer.reference_phrases ChunkAnalyzer.init)
               /\ contains (lower c) phrase = true) by eauto.
    apply (analyze_chunk_reference_loss lower _ chunks i c) in Hrl
      as (p & Hp & Ht).
    exists p. split; [|split; [now apply analyze_chunk_index in Hp | exact Ht]].
    apply in_analyze_chunks. exists i, c. split; [|now split].
    split; [lia|]. apply nth_error_lt in Hc. unfold len. lia.
Qed.

(** X14.  [ChunkAnalyzer.analyze_chunks] reports a Structural Destruction at
    chunk [i] exactly when chunk [i] exists, its trimmed content starts with
    one of the list markers, and either [i = 0] or chunk [i-1] with its
    trailing whitespace removed does not end with ':'. *)
Theorem analyze_chunks_structural_destruction (lower : str -> str)
        (chunks : list str) (i : Z) :
  (exists p,
      In p (ChunkAnalyzer.analyze_chunks lower ChunkAnalyzer.init chunks)
      /\ chunk_index p = i
      /\ problem_type p = py "Structural Destruction")
  <->
  (0 <= i
   /\ exists c,
       nth_error chunks (Z.to_nat i) = Some c
       /\ startswith_any (strip c)
            [py "- "; py "* "; [8226%N; 32%N]; py "1. "; py "2. "; py "3. "]
          = true
       /\ (i = 0
           \/ exists prev,
               nth_error chunks (Z.to_nat (i - 1)) = Some prev
               /\ endswith (rstrip prev) (py ":") = false)).
Proof.
  split.
  - intros (p & Hin & Hi & Ht).
    apply in_analyze_chunks in Hin as (k & c & Hk & Hc & Hp).
    pose proof (analyze_chunk_index _ _ _ _ _ _ Hp) as Hidx.
    assert (Hsd : exists q,
               In q (ChunkAnalyzer.analyze_chunk lower ChunkAnalyzer.init
                       chunks k c)
               /\ problem_type q = py "Structural Destruction") by eauto.
    apply analyze_chunk_structural in Hsd as [Hmark Hprev].
    subst i. rewrite Hidx. split; [lia|]. exists c.
    split; [exact Hc|]. split; [exact Hmark|].
    destruct (Z.eqb_spec k 0) as [->|Hne]; [now left|]. right.
    destruct (getitem_prev chunks k ltac:(lia)) as (prev & Hnth & Hget).
    exists prev. split; [exact Hnth|].
    rewrite Hget in Hprev. simpl in Hprev. now apply negb_true_iff.
  - intros (Hi & c & Hc & Hmark & Hprev).
    assert (Hlt : i < len chunks).
    { apply nth_error_lt in Hc. unfold len. lia. }
    assert (Hsd : startswith_any (strip c) ChunkAnalyzer.list_markers = true
                  /\ (i =? 0)
                     || negb (endswith (rstrip (getitem chunks (i - 1))) (py ":"))
                     = true).
    { split; [exact Hmark|].
      destruct Hprev as [->|(prev & Hnth & Hend)]; [reflexivity|].
      destruct (Z.eqb_spec i 0) as [|Hne]; [reflexivity|].
      destruct (getitem_prev chunks i ltac:(lia)) as (prev' & Hnth' & ->).
      rewrite Hnth in Hnth'. injection Hnth' as <-.
      simpl. now apply negb_true_iff. }
    apply (analyze_chunk_structural lower ChunkAnalyzer.init chunks i c) in Hsd
      as (p & Hp & Ht).
    exists p. split; [|split; [now apply analyze_chunk_index in Hp | exact Ht]].
    apply in_analyze_chunks. exists i, c. split; [lia | now split].
Qed.

(** ** [find] and the excerpt of [_extract_context] *)

Lemma startswith_nil (s : str) : startswith s [] = true.
Proof. now destruct s. Qed.

Lemma startswith_firstn (s p : str) :
  startswith s p = true -> firstn (length p) s = p.
Proof.
  revert s. induction p as [|x p IH]; intros s H; [reflexivity|].
  destruct s as [|y s]; [discriminate|]. simpl in H.
  apply andb_prop in H as [Hxy H]. apply N.eqb_eq in Hxy. subst y.
  simpl. now rewrite IH.
Qed.

Lemma startswith_length (s p : str) :
  startswith s p = true -> (length p <= length s)%nat.
Proof.
  revert s. induction p as [|x p IH]; intros s H; simpl; [lia|].
  destruct s as [|y s]; [discriminate|]. simpl in H.
  apply andb_prop in H as [_ H]. apply IH in H. simpl. lia.
Qed.

Lemma startswith_of_firstn (s p : str) (n : nat) :
  startswith s p = true -> (length p <= n)%nat ->
  startswith (firstn n s) p = true.
Proof.
  revert s n. induction p as [|x p IH]; intros s n H Hn;
    [apply startswith_nil|].
  destruct s as [|y s]; [discriminate|]. simpl in H.
  apply andb_prop in H as [Hxy H].
  destruct n as [|n]; [simpl in Hn; lia|]. simpl.
  rewrite Hxy. apply IH; [exact H | simpl in Hn; lia].
Qed.

Lemma find_from_spec (sub : str) :
  forall (s : str) (i : Z),
    0 <= i ->
    find_from i s sub = -1
    \/ (i <= find_from i s sub <= i + len s
        /\ startswith (skipn (Z.to_nat (find_from i s sub - i)) s) sub = true).
Proof.
  induction s as [|c s IH]; intros i Hi; cbn [find_from].
  - destruct (startswith [] sub) eqn:E; [|now left].
    right. rewrite Z.sub_diag. cbn [Z.to_nat skipn].
    split; [unfold len; simpl; lia | exact E].
  - destruct (startswith (c :: s) sub) eqn:E.
    + right. rewrite Z.sub_diag. cbn [Z.to_nat skipn]. split; [|exact E].
      pose proof (len_nonneg (c :: s)). lia.
    + destruct (IH (i + 1) ltac:(lia)) as [H|[Hr Hs]]; [now left|].
      right. split; [unfold len in *; simpl length; lia|].
      replace (Z.to_nat (find_from (i + 1) s sub - i))
        with (S (Z.to_nat (find_from (i + 1) s sub - (i + 1)))) by lia.
      exact Hs.
Qed.

Lemma find_from_complete (sub : str) :
  forall (s : str) (i : Z) (k : nat),
    0 <= i ->
    startswith (skipn k s) sub = true -> find_from i s sub <> -1.
Proof.
  induction s as [|c s IH]; intros i k Hi H; cbn [find_from].
  - rewrite skipn_nil in H. rewrite H. lia.
  - destruct (startswith (c :: s) sub) eqn:E; [lia|].
    destruct k as [|k]; [cbn [skipn] in H; congruence|].
    cbn [skipn] in H. apply (IH (i + 1) k); [lia | exact H].
Qed.

Lemma contains_at (s sub : str) (k : nat) :
  startswith (skipn k s) sub = true -> contains s sub = true.
Proof.
  intros H. unfold contains, find. apply negb_true_iff, Z.eqb_neq.
  now apply (find_from_complete sub s 0 k).
Qed.

(** X15.  For a context size of at least 0 and whatever [str.lower] does,
    [_extract_context] returns the empty string when the phrase does not
    occur in the lower-cased text, and otherwise "..." followed by a slice
    of the text of at most [len(phrase) + 2 * context_size] characters
    followed by "...". *)
Theorem extract_context_shape (lower : str -> str) (text phrase : str)
        (context_size : Z) :
  0 <= context_size ->
  (contains (lower text) phrase = false
   /\ ChunkAnalyzer._extract_context lower text phrase context_size = [])
  \/ (contains (lower text) phrase = true
      /\ exists i j,
          ChunkAnalyzer._extract_context lower text phrase context_size
          = py "..." ++ slice text i j ++ py "..."
          /\ len (slice text i j) <= len phrase + 2 * context_size).
Proof.
  intros Hctx. unfold ChunkAnalyzer._extract_context, contains.
  destruct (find_from_spec phrase (lower text) 0 ltac:(lia)) as [H|[Hr _]];
    unfold find.
  - rewrite H. simpl. now left.
  - destruct (Z.eqb_spec (find_from 0 (lower text) phrase) (-1)); [lia|].
    right. split; [reflexivity|]. eexists _, _. split; [reflexivity|].
    pose proof (len_nonneg text). pose proof (len_nonneg phrase).
    rewrite slice_nonneg by lia. unfold len in *.
    rewrite length_firstn. lia.
Qed.

Lemma extract_context_shape_witness :
  0 <= 30
  /\ ((contains (ascii_lower (py "Go on, See Table 2.")) (py "see table") = false
       /\ ChunkAnalyzer._extract_context ascii_lower (py "Go on, See Table 2.")
            (py "see table") 30 = [])
      \/ (contains (ascii_lower (py "Go on, See Table 2.")) (py "see table") = true
          /\ exists i j,
              ChunkAnalyzer._extract_context ascii_lower
                (py "Go on, See Table 2.") (py "see table") 30
              = py "..." ++ slice (py "Go on, See Table 2.") i j ++ py "..."
              /\ len (slice (py "Go on, See Table 2.") i j)
                 <= len (py "see table") + 2 * 30)).
Proof.
  split; [lia|].
  apply (extract_context_shape ascii_lower (py "Go on, See Table 2.")
           (py "see table") 30). lia.
Defined.

(** X16.  When lower-casing acts character by character (as [str.lower]
    does on ASCII text) and the context size is at least 0, the excerpt that
    [_extract_context] cuts out of the text holds the phrase: lower-cased,
    the part between the two "..." contains it. *)
Theorem extract_context_holds_phrase (f : char -> char) (text phrase : str)
        (context_size : Z) :
  0 <= context_size ->
  contains (map f text) phrase = true ->
  exists mid,
    ChunkAnalyzer._extract_context (map f) text phrase context_size
    = py "..." ++ mid ++ py "..."
    /\ contains (map f mid) phrase = true.
Proof.
  intros Hctx Hc. unfold ChunkAnalyzer._extract_context.
  unfold contains, find in Hc. apply negb_true_iff, Z.eqb_neq in Hc.
  destruct (find_from_spec phrase (map f text) 0 ltac:(lia)) as [H|[Hr Hs]];
    [contradiction|].
  unfold find. set (idx := find_from 0 (map f text) phrase) in *.
  destruct (Z.eqb_spec idx (-1)); [lia|].
  eexists. split; [reflexivity|].
  rewrite Z.sub_0_r in Hs.
  pose proof (startswith_length _ _ Hs) as Hlen.
  rewrite length_skipn, length_map in Hlen.
  assert (Hidx : (Z.to_nat idx + length phrase <= length text)%nat).
  { unfold len in Hr. rewrite length_map in Hr. lia. }
  pose proof (len_nonneg text) as Hn.
  set (start := Z.max 0 (idx - context_size)).
  set (end_ := Z.min (len text) (idx + len phrase + context_size)).
  assert (Hstart : 0 <= start <= idx) by lia.
  assert (Hend : idx + len phrase <= end_) by (unfold len in *; lia).
  pose proof (len_nonneg phrase) as Hp.
  rewrite slice_nonneg by lia.
  rewrite <- firstn_map, <- skipn_map.
  apply (contains_at _ _ (Z.to_nat (idx - start))).
  rewrite skipn_firstn_comm, skipn_skipn.
  replace (Z.to_nat (idx - start) + Z.to_nat start)%nat with (Z.to_nat idx)
    by lia.
  apply startswith_of_firstn; [exact Hs|]. unfold len in *. lia.
Qed.

Lemma extract_context_holds_phrase_witness :
  0 <= 30
  /\ contains (ascii_lower (py "Go on, See Table 2.")) (py "see table") = true
  /\ exists mid,
      ChunkAnalyzer._extract_context ascii_lower (py "Go on, See Table 2.")
        (py "see table") 30
      = py "..." ++ mid ++ py "..."
      /\ contains (ascii_lower mid) (py "see table") = true.
Proof.
  split; [lia|]. split; [reflexivity|].
  apply (extract_context_holds_phrase
           (fun c => if ((65 <=? c) && (c <=? 90))%N then (c + 32)%N else c)
           (py "Go on, See Table 2.") (py "see table") 30);
    [lia | reflexivity].
Defined.

(** ** A text within [max_size] is never split *)

(** The pieces of [re.split], each counted with one separator character,
    are no longer than the text and one more separator. *)
Lemma re_split_aux_total (m : matcher) :
  forall text prev piece skip,
    fold_right (fun p acc => len p + 1 + acc) 0
               (re_split_aux m prev piece skip text)
    <= len piece + len text + 1.
Proof.
  induction text as [|c rest IH]; intros prev piece skip; cbn [re_split_aux].
  - cbn [fold_right]. unfold len. rewrite length_rev. simpl. lia.
  - assert (Hlen : len (c :: rest) = len rest + 1)
      by (unfold len; simpl length; lia).
    destruct skip as [|k].
    + destruct (m prev (c :: rest)) as [|k].
      * specialize (IH (Some c) (c :: piece) O).
        assert (len (c :: piece) = len piece + 1)
          by (unfold len; simpl length; lia).
        lia.
      * cbn [fold_right]. specialize (IH (Some c) [] k).
        unfold len at 1. rewrite length_rev. fold (len piece).
        change (len (@nil char)) with 0 in IH. lia.
    + specialize (IH (Some c) piece k). lia.
Qed.

Lemma sentence_fold_fits self (ss : list str) :
  forall cur,
    len cur + fold_right (fun p acc => len p + 1 + acc) 0 ss
    <= SentenceAwareChunker.max_size self + 1 ->
    exists cur',
      fold_left (SentenceAwareChunker.step self) ss ([], cur) = ([], cur')
      /\ (cur <> [] -> cur' <> [])
      /\ (match ss with s :: _ => s <> [] | [] => False end -> cur' <> []).
Proof.
  induction ss as [|s ss IH]; intros cur Hlen; cbn [fold_left fold_right] in *.
  - exists cur. repeat split; [trivial | contradiction].
  - pose proof (len_nonneg s). pose proof (len_nonneg cur).
    assert (Hrest : 0 <= fold_right (fun p acc => len p + 1 + acc) 0 ss).
    { clear. induction ss as [|x ss IH]; simpl; [lia|].
      pose proof (len_nonneg x). lia. }
    assert (Hstep : exists cur1,
               SentenceAwareChunker.step self ([], cur) s = ([], cur1)
               /\ len cur1 <= len cur + 1 + len s
               /\ (cur <> [] -> cur1 <> [])
               /\ (s <> [] -> cur1 <> [])).
    { unfold SentenceAwareChunker.step.
      destruct (Z.gtb_spec (len cur + len s)
                           (SentenceAwareChunker.max_size self)); [lia|].
      cbn [andb].
      destruct (_ <=? _).
      - destruct cur as [|c cur]; cbn [truthy].
        + exists s. repeat split; [lia | contradiction | trivial].
        + eexists. split; [reflexivity|]. rewrite !len_app.
          change (len (py " ")) with 1. repeat split; [lia | discriminate..].
      - destruct (Z.leb_spec (len cur + len s)
                             (SentenceAwareChunker.max_size self)); [|lia].
        eexists. split; [reflexivity|]. rewrite !len_app.
        change (len (py " ")) with 1. split; [lia|].
        split; intros _ E; apply app_eq_nil in E as [_ E]; discriminate. }
    destruct Hstep as (cur1 & -> & Hlen1 & Hkeep & Hs).
    destruct (IH cur1 ltac:(lia)) as (cur' & Hfold & Hkeep' & _).
    exists cur'. split; [exact Hfold|]. split; auto.
Qed.

Lemma sentence_single_chunk (self : SentenceAwareChunker.t) (text : str) :
  text <> [] ->
  len text <= SentenceAwareChunker.max_size self ->
  exists c,
    SentenceAwareChunker.chunk self text = [c]
    /\ remove_ws c = remove_ws text.
Proof.
  intros Hne Hlen.
  pose proof (sentence_roundtrip self text) as Hrt.
  unfold SentenceAwareChunker.chunk in *.
  pose proof (re_split_aux_total sentence_boundary text None [] O) as Htot.
  change (len (@nil char)) with 0 in Htot.
  destruct (re_split_head sentence_boundary text (fun _ => eq_refl) Hne)
    as (p & ps & Eps & Hp).
  fold (re_split sentence_boundary text) in Htot.
  destruct (sentence_fold_fits self (re_split sentence_boundary text) [])
    as (cur & Hfold & _ & Hcur).
  { change (len (@nil char)) with 0. lia. }
  rewrite Hfold in *. rewrite Eps in Hcur. specialize (Hcur Hp).
  destruct cur as [|c cur]; [contradiction|]. cbn [truthy app] in *.
  eexists. split; [reflexivity|].
  cbn [concat] in Hrt. now rewrite app_nil_r in Hrt.
Qed.

(** X17.  Whatever [target_size] is, [SentenceAwareChunker.chunk] does not
    split a non-empty text of at most [max_size] characters: it returns
    exactly one chunk, which holds the non-whitespace content of the
    text. *)
Theorem sentence_chunk_within_max_is_single
        (self : SentenceAwareChunker.t) (text : str) :
  text <> [] ->
  len text <= SentenceAwareChunker.max_size self ->
  exists c,
    SentenceAwareChunker.chunk self text = [c]
    /\ remove_ws c = remove_ws text.
Proof. apply sentence_single_chunk. Qed.

Lemma sentence_chunk_within_max_is_single_witness :
  py "One. Two. Three." <> []
  /\ len (py "One. Two. Three.")
     <= SentenceAwareChunker.max_size (SentenceAwareChunker.init (Some 1) None)
  /\ exists c,
      SentenceAwareChunker.chunk (SentenceAwareChunker.init (Some 1) None)
        (py "One. Two. Three.") = [c]
      /\ remove_ws c = remove_ws (py "One. Two. Three.").
Proof.
  assert (H1 : py "One. Two. Three." <> []) by discriminate.
  assert (H2 : len (py "One. Two. Three.")
               <= SentenceAwareChunker.max_size
                    (SentenceAwareChunker.init (Some 1) None))
    by (vm_compute; discriminate).
  split; [exact H1|]. split; [exact H2|].
  exact (sentence_chunk_within_max_is_single _ _ H1 H2).
Defined.

Lemma re_split_aux_no_newline :
  forall text prev piece,
    Forall (fun c => (c =? 10)%N = false) text ->
    re_split_aux paragraph_break prev piece O text = [rev piece ++ text].
Proof.
  induction text as [|c rest IH]; intros prev piece Ht.
  - simpl. now rewrite app_nil_r.
  - inversion Ht as [|? ? Hc Hrest]; subst.
    assert (E : paragraph_break prev (c :: rest) = O).
    { unfold paragraph_break. simpl. now rewrite Hc. }
    cbn [re_split_aux]. rewrite E.
    rewrite IH by assumption. simpl. now rewrite <- app_assoc.
Qed.

(** X18.  The sentence fallback of [ParagraphAwareChunker.chunk] does not
    split a paragraph of at most 1200 characters: a text without newline
    whose trimmed length is above [target_size] (at least 0) and at most
    1200 comes back as exactly one chunk, which holds the non-whitespace
    content of the text. *)
Theorem paragraph_fallback_within_1200_is_single (target : Z) (text : str) :
  Forall (fun c => (c =? 10)%N = false) text ->
  0 <= target < len (strip text) ->
  len (strip text) <= 1200 ->
  exists c,
    ParagraphAwareChunker.chunk
      {| ParagraphAwareChunker.target_size := target |} text = [c]
    /\ remove_ws c = remove_ws text.
Proof.
  intros Hnl Ht Hmax. unfold ParagraphAwareChunker.chunk, re_split.
  rewrite re_split_aux_no_newline by exact Hnl.
  cbn [rev app fold_left]. unfold ParagraphAwareChunker.step.
  cbn [ParagraphAwareChunker.target_size].
  destruct (strip text) as [|x p] eqn:E;
    [unfold len in Ht; simpl in Ht; lia|].
  cbn [truthy negb].
  destruct (Z.gtb_spec (len (x :: p)) target); [|lia].
  destruct (sentence_single_chunk
              (SentenceAwareChunker.init (Some target) None) (x :: p))
    as (c & Hc & Hrw); [discriminate | exact Hmax |].
  rewrite Hc. cbn [fold_left]. unfold ParagraphAwareChunker.merge.
  cbn [truthy ParagraphAwareChunker.target_size].
  assert (Hne : c <> []).
  { intros ->. rewrite remove_ws_nil in Hrw. symmetry in Hrw.
    revert Hrw. apply edged_not_space. rewrite <- E. apply strip_edged.
    rewrite E. discriminate. }
  exists c. split.
  - destruct (_ <=? _); destruct c; try contradiction; reflexivity.
  - now rewrite Hrw, <- E, remove_ws_strip.
Qed.

Lemma paragraph_fallback_within_1200_is_single_witness :
  Forall (fun c => (c =? 10)%N = false) (py "One. Two. Three.")
  /\ 0 <= 5 < len (strip (py "One. Two. Three."))
  /\ len (strip (py "One. Two. Three.")) <= 1200
  /\ exists c,
      ParagraphAwareChunker.chunk
        {| ParagraphAwareChunker.target_size := 5 |} (py "One. Two. Three.")
      = [c]
      /\ remove_ws c = remove_ws (py "One. Two. Three.").
Proof.
  assert (H1 : Forall (fun c => (c =? 10)%N = false) (py "One. Two. Three."))
    by (repeat constructor).
  assert (H2 : 0 <= 5 < len (strip (py "One. Two. Three.")))
    by (vm_compute; split; [discriminate | reflexivity]).
  assert (H3 : len (strip (py "One. Two. Three.")) <= 1200)
    by (vm_compute; discriminate).
  split; [exact H1|]. split; [exact H2|]. split; [exact H3|].
  exact (paragraph_fallback_within_1200_is_single 5 _ H1 H2 H3).
Defined.

(** ** The annotated chunks *)

Lemma nth_error_enumerate_from {A : Type} (l : list A) :
  forall (s i : nat),
    nth_error (combine (map Z.of_nat (seq s (length l))) l) i
    = option_map (fun c => (Z.of_nat (s + i), c)) (nth_error l i).
Proof.
  induction l as [|a l IH]; intros s i; simpl.
  - now destruct i.
  - destruct i as [|i]; simpl.
    + now rewrite Nat.add_0_r.
    + rewrite IH. now replace (S s + i)%nat with (s + S i)%nat by lia.
Qed.

Lemma nth_error_enumerate {A : Type} (l : list A) (i : nat) :
  nth_error (enumerate l) i
  = option_map (fun c => (Z.of_nat i, c)) (nth_error l i).
Proof. unfold enumerate. now rewrite nth_error_enumerate_from. Qed.

Lemma map_snd_enumerate_from {A : Type} (l : list A) :
  forall s, map snd (combine (map Z.of_nat (seq s (length l))) l) = l.
Proof. induction l as [|a l IH]; intros s; simpl; [|rewrite IH]; reflexivity. Qed.

Lemma map_fst_enumerate_from {A : Type} (l : list A) :
  forall s,
    map fst (combine (map Z.of_nat (seq s (length l))) l)
    = map Z.of_nat (seq s (length l)).
Proof. induction l as [|a l IH]; intros s; simpl; [|rewrite IH]; reflexivity. Qed.

(** What an entry owes to its index and chunk alone. *)
Lemma annotate_entries text doc_title sections chunks :
  forall todo st,
    Forall2
      (fun (ic : Z * str) (e : ChunkWithMetadata.t) =>
         ChunkWithMetadata.content e = snd ic
         /\ ChunkWithMetadata.chunk_index e = fst ic
         /\ Metadata.chunk_index (ChunkWithMetadata.metadata e) = fst ic
         /\ Metadata.total_chunks (ChunkWithMetadata.metadata e) = len chunks
         /\ Metadata.doc_title (ChunkWithMetadata.metadata e) = doc_title
         /\ Metadata.word_count (ChunkWithMetadata.metadata e)
            = len (split_ws (snd ic))
         /\ ChunkWithMetadata.overlap_with_previous e
            = (if fst ic >? 0
               then Some (slice (getitem chunks (fst ic - 1)) (-50)
                                (len (getitem chunks (fst ic - 1))))
               else None)
         /\ ChunkWithMetadata.overlap_with_next e
            = (if fst ic <? len chunks - 1
               then Some (slice (getitem chunks (fst ic + 1)) 0 50)
               else None))
      todo
      (MetadataPreservingChunker.annotate text doc_title sections chunks todo st).
Proof.
  induction todo as [|[i chunk] todo IH]; intros [pos names];
    cbn [MetadataPreservingChunker.annotate]; constructor.
  - cbn. repeat split.
  - apply IH.
Qed.

Lemma Forall2_map_eq {A B C : Type} (f : A -> C) (g : B -> C)
      (l : list A) (l' : list B) :
  Forall2 (fun a b => g b = f a) l l' -> map g l' = map f l.
Proof. induction 1 as [|a b l l' H _ IH]; simpl; [|rewrite H, IH]; reflexivity. Qed.

Lemma Forall2_Forall_r {A B : Type} (R : A -> B -> Prop) (P : B -> Prop)
      (l : list A) (l' : list B) :
  Forall2 R l l' -> (forall a b, In a l -> R a b -> P b) -> Forall P l'.
Proof.
  induction 1 as [|a b l l' H _ IH]; intros HP; constructor.
  - apply (HP a); [now left | exact H].
  - apply IH. intros x y Hx. apply HP. now right.
Qed.

Lemma Forall2_nth_error_r {A B : Type} (R : A -> B -> Prop)
      (l : list A) (l' : list B) :
  Forall2 R l l' ->
  forall i b, nth_error l' i = Some b ->
              exists a, nth_error l i = Some a /\ R a b.
Proof.
  induction 1 as [|a b l l' H _ IH]; intros i y Hy.
  - now destruct i.
  - destruct i as [|i]; simpl in *.
    + injection Hy as <-. now exists a.
    + now apply IH.
Qed.

(** X19.  [MetadataPreservingChunker.chunk_with_metadata] returns one entry
    per chunk of the sentence splitter configured with target size
    [chunk_size] and hard maximum 1200, in order: entry [i] has that chunk as
    content, [i] as chunk index in the entry and in its metadata, the number
    of chunks as total, the given document title, and the number of
    whitespace-separated words of the chunk as word count. *)
Theorem chunk_with_metadata_entries (self : MetadataPreservingChunker.t)
        (text doc_title : str) :
  let chunks :=
    SentenceAwareChunker.chunk
      {| SentenceAwareChunker.target_size :=
           MetadataPreservingChunker.chunk_size self;
         SentenceAwareChunker.max_size := 1200 |} text in
  let result :=
    MetadataPreservingChunker.chunk_with_metadata self text doc_title in
  map ChunkWithMetadata.content result = chunks
  /\ map ChunkWithMetadata.chunk_index result
     = map Z.of_nat (seq 0 (length chunks))
  /\ Forall
       (fun e =>
          Metadata.chunk_index (ChunkWithMetadata.metadata e)
          = ChunkWithMetadata.chunk_index e
          /\ Metadata.total_chunks (ChunkWithMetadata.metadata e) = len chunks
          /\ Metadata.doc_title (ChunkWithMetadata.metadata e) = doc_title
          /\ Metadata.word_count (ChunkWithMetadata.metadata e)
             = len (split_ws (ChunkWithMetadata.content e)))
       result.
Proof.
  intros chunks result.
  pose proof (annotate_entries text doc_title
                (MetadataPreservingChunker.find_sections 0 true O text)
                chunks (enumerate chunks) (0, ([], []))) as H.
  fold result in H. split; [|split].
  - transitivity (map snd (enumerate chunks));
      [|apply (map_snd_enumerate_from chunks 0)].
    apply Forall2_map_eq. eapply Forall2_impl; [|exact H].
    cbn beta. intros ic e He. apply He.
  - transitivity (map fst (enumerate chunks));
      [|apply (map_fst_enumerate_from chunks 0)].
    apply Forall2_map_eq. eapply Forall2_impl; [|exact H].
    cbn beta. intros ic e He. apply He.
  - eapply Forall2_Forall_r; [exact H|]. cbn beta.
    intros ic e _ (Hc & Hi & Hmi & Ht & Hd & Hw & _).
    rewrite Hc, Hi. repeat split; assumption.
Qed.

Lemma slice_last_50 (c : str) : slice c (-50) (len c) = skipn (length c - 50) c.
Proof.
  unfold slice, slice_bound. pose proof (len_nonneg c) as Hn.
  destruct (Z.ltb_spec (-50) 0); [|lia].
  destruct (Z.ltb_spec (len c) 0); [lia|].
  rewrite Z.min_id.
  replace (Z.to_nat (Z.max 0 (-50 + len c))) with (length c - 50)%nat
    by (unfold len; lia).
  apply firstn_all2. rewrite length_skipn. unfold len. lia.
Qed.

Lemma slice_first_50 (c : str) : slice c 0 50 = firstn 50 c.
Proof. now rewrite slice_nonneg by lia. Qed.

Lemma getitem_nth_error (chunks : list str) (i : nat) (c : str) :
  nth_error chunks i = Some c -> getitem chunks (Z.of_nat i) = c.
Proof.
  intros H. unfold getitem.
  assert (Hf : (Z.of_nat i <? 0) = false) by (apply Z.ltb_ge; lia).
  rewrite Hf. cbv beta iota zeta. rewrite Hf.
  rewrite Nat2Z.id. now apply nth_error_nth.
Qed.

(** X20.  In the result of [chunk_with_metadata], [overlap_with_previous]
    of entry [i] is [None] for the first entry and otherwise the last 50
    characters of chunk [i-1] (the whole chunk when it is shorter);
    [overlap_with_next] is [None] for the last entry and otherwise the first
    50 characters of chunk [i+1]. *)
Theorem chunk_with_metadata_overlaps (self : MetadataPreservingChunker.t)
        (text doc_title : str) (i : nat) (e : ChunkWithMetadata.t) :
  let chunks :=
    SentenceAwareChunker.chunk
      {| SentenceAwareChunker.target_size :=
           MetadataPreservingChunker.chunk_size self;
         SentenceAwareChunker.max_size := 1200 |} text in
  nth_error (MetadataPreservingChunker.chunk_with_metadata self text doc_title) i
  = Some e ->
  ChunkWithMetadata.overlap_with_previous e
  = match i with
    | O => None
    | S j => option_map (fun prev => skipn (length prev - 50) prev)
                        (nth_error chunks j)
    end
  /\ ChunkWithMetadata.overlap_with_next e
     = option_map (firstn 50) (nth_error chunks (S i)).
Proof.
  intros chunks He.
  pose proof (annotate_entries text doc_title
                (MetadataPreservingChunker.find_sections 0 true O text)
                chunks (enumerate chunks) (0, ([], []))) as H.
  destruct (Forall2_nth_error_r _ _ _ H i e He) as ([k c] & Hk & R).
  rewrite nth_error_enumerate in Hk.
  destruct (nth_error chunks i) as [ci|] eqn:Eci; [|discriminate].
  injection Hk as <- <-. cbn [fst snd] in R.
  destruct R as (_ & _ & _ & _ & _ & _ & Hprev & Hnext).
  pose proof (nth_error_lt _ _ _ Eci) as Hlt.
  split.
  - rewrite Hprev. destruct i as [|j]; [reflexivity|].
    destruct (Z.gtb_spec (Z.of_nat (S j)) 0); [|lia].
    destruct (nth_error chunks j) as [prev|] eqn:Ej;
      [|apply nth_error_None in Ej; lia].
    replace (Z.of_nat (S j) - 1) with (Z.of_nat j) by lia.
    rewrite (getitem_nth_error _ _ _ Ej). cbn [option_map].
    now rewrite slice_last_50.
  - rewrite Hnext. unfold len.
    destruct (Z.ltb_spec (Z.of_nat i) (Z.of_nat (length chunks) - 1)).
    + destruct (nth_error chunks (S i)) as [nxt|] eqn:En;
        [|apply nth_error_None in En; lia].
      replace (Z.of_nat i + 1) with (Z.of_nat (S i)) by lia.
      rewrite (getitem_nth_error _ _ _ En). cbn [option_map].
      now rewrite slice_first_50.
    + destruct (nth_error chunks (S i)) eqn:En; [|reflexivity].
      apply nth_error_lt in En. lia.
Qed.

Lemma chunk_with_metadata_overlaps_witness :
  let text := repeat 97%N 699 ++ py ". " ++ repeat 98%N 699 ++ py "." in
  let self := MetadataPreservingChunker.init None in
  let chunks :=
    SentenceAwareChunker.chunk
      {| SentenceAwareChunker.target_size :=
           MetadataPreservingChunker.chunk_size self;
         SentenceAwareChunker.max_size := 1200 |} text in
  let entry (i : Z) (c : str) (prev next : option str) :=
    {| ChunkWithMetadata.content := c;
       ChunkWithMetadata.metadata :=
         {| Metadata.doc_title := py "T";
            Metadata.section := [];
            Metadata.subsection := [];
            Metadata.chunk_index := i;
            Metadata.total_chunks := 2;
            Metadata.has_list := false;
            Metadata.has_code := false;
            Metadata.word_count := 1 |};
       ChunkWithMetadata.chunk_index := i;
       ChunkWithMetadata.overlap_with_previous := prev;
       ChunkWithMetadata.overlap_with_next := next |} in
  let e0 := entry 0 (repeat 97%N 699 ++ py ".") None (Some (repeat 98%N 50)) in
  let e1 :=
    entry 1 (repeat 98%N 699 ++ py ".") (Some (repeat 97%N 49 ++ py ".")) None in
  chunks = [repeat 97%N 699 ++ py "."; repeat 98%N 699 ++ py "."]
  /\ nth_error
       (MetadataPreservingChunker.chunk_with_metadata self text (py "T")) 0
     = Some e0
  /\ nth_error
       (MetadataPreservingChunker.chunk_with_metadata self text (py "T")) 1
     = Some e1
  /\ (ChunkWithMetadata.overlap_with_previous e0 = None
      /\ ChunkWithMetadata.overlap_with_next e0
         = option_map (firstn 50) (nth_error chunks 1))
  /\ (ChunkWithMetadata.overlap_with_previous e1
      = option_map (fun prev => skipn (length prev - 50) prev)
                   (nth_error chunks 0)
      /\ ChunkWithMetadata.overlap_with_next e1
         = option_map (firstn 50) (nth_error chunks 2)).
Proof.
  intros text self chunks entry e0 e1.
  assert (Hc : chunks = [repeat 97%N 699 ++ py "."; repeat 98%N 699 ++ py "."])
    by (vm_compute; reflexivity).
  assert (H0 : nth_error
                 (MetadataPreservingChunker.chunk_with_metadata self text
                    (py "T")) 0 = Some e0)
    by (vm_compute; reflexivity).
  assert (H1 : nth_error
                 (MetadataPreservingChunker.chunk_with_metadata self text
                    (py "T")) 1 = Some e1)
    by (vm_compute; reflexivity).
  split; [exact Hc|]. split; [exact H0|]. split; [exact H1|]. split.
  - exact (chunk_with_metadata_overlaps self text (py "T") 0%nat e0 H0).
  - exact (chunk_with_metadata_overlaps self text (py "T") 1%nat e1 H1).
Defined.

(** ** Section and subsection of an entry *)

Lemma update_section_names (sections : list SectionDict.t) chunk_start :
  forall (seen : list SectionDict.t) (names : str * str),
    incl seen sections ->
    (fst names = []
     \/ exists s, In s sections /\ SectionDict.level s = 1
                  /\ SectionDict.title s = fst names) ->
    (snd names = []
     \/ exists s, In s sections /\ SectionDict.level s = 2
                  /\ SectionDict.title s = snd names) ->
    let names' :=
      fold_left (MetadataPreservingChunker.update_section chunk_start)
                seen names in
    (fst names' = []
     \/ exists s, In s sections /\ SectionDict.level s = 1
                  /\ SectionDict.title s = fst names')
    /\ (snd names' = []
        \/ exists s, In s sections /\ SectionDict.level s = 2
                     /\ SectionDict.title s = snd names').
Proof.
  induction seen as [|s seen IH]; intros names Hincl H1 H2; cbn [fold_left];
    [now split|].
  assert (Hs : In s sections) by (apply Hincl; now left).
  apply IH; [intros x Hx; apply Hincl; now right | |];
    unfold MetadataPreservingChunker.update_section;
    destruct (_ <=? _); try assumption;
    destruct (Z.eqb_spec (SectionDict.level s) 1) as [E1|E1]; cbn [fst snd];
    try assumption;
    try (right; now exists s);
    destruct (Z.eqb_spec (SectionDict.level s) 2) as [E2|E2]; cbn [fst snd];
    try assumption;
    right; now exists s.
Qed.

Lemma annotate_names text doc_title (sections : list SectionDict.t) chunks :
  forall todo (st : Z * (str * str)),
    (fst (snd st) = []
     \/ exists s, In s sections /\ SectionDict.level s = 1
                  /\ SectionDict.title s = fst (snd st)) ->
    (snd (snd st) = []
     \/ exists s, In s sections /\ SectionDict.level s = 2
                  /\ SectionDict.title s = snd (snd st)) ->
    Forall
      (fun e =>
         (Metadata.section (ChunkWithMetadata.metadata e) = []
          \/ exists s, In s sections /\ SectionDict.level s = 1
                       /\ SectionDict.title s
                          = Metadata.section (ChunkWithMetadata.metadata e))
         /\ (Metadata.subsection (ChunkWithMetadata.metadata e) = []
             \/ exists s, In s sections /\ SectionDict.level s = 2
                          /\ SectionDict.title s
                             = Metadata.subsection (ChunkWithMetadata.metadata e)))
      (MetadataPreservingChunker.annotate text doc_title sections chunks todo st).
Proof.
  induction todo as [|[i chunk] todo IH]; intros [pos names] H1 H2;
    cbn [MetadataPreservingChunker.annotate]; constructor.
  - cbn [ChunkWithMetadata.metadata Metadata.section Metadata.subsection].
    apply (update_section_names sections _ sections names (incl_refl _) H1 H2).
  - cbn [fst snd] in *.
    destruct (update_section_names sections (find_at text chunk pos) sections
                names (incl_refl _) H1 H2) as [H1' H2'].
    now apply IH.
Qed.

(** X21.  In every entry returned by [chunk_with_metadata], the section is
    empty or the title of a header of level 1 found in the text by the
    section pattern, and the subsection is empty or the title of a header of
    level 2 found in the text. *)
Theorem chunk_with_metadata_section_names (self : MetadataPreservingChunker.t)
        (text doc_title : str) :
  let sections := MetadataPreservingChunker.find_sections 0 true O text in
  Forall
    (fun e =>
       (Metadata.section (ChunkWithMetadata.metadata e) = []
        \/ exists s, In s sections /\ SectionDict.level s = 1
                     /\ SectionDict.title s
                        = Metadata.section (ChunkWithMetadata.metadata e))
       /\ (Metadata.subsection (ChunkWithMetadata.metadata e) = []
           \/ exists s, In s sections /\ SectionDict.level s = 2
                        /\ SectionDict.title s
                           = Metadata.subsection (ChunkWithMetadata.metadata e)))
    (MetadataPreservingChunker.chunk_with_metadata self text doc_title).
Proof.
  intros sections. unfold MetadataPreservingChunker.chunk_with_metadata.
  apply annotate_names; now left.
Qed.

Lemma find_sections_no_hash :
  forall text pos line_start,
    Forall (fun c => is_hash c = false) text ->
    MetadataPreservingChunker.find_sections pos line_start O text = [].
Proof.
  induction text as [|c rest IH]; intros pos ls Ht; [reflexivity|].
  inversion Ht as [|? ? Hc Hrest]; subst.
  cbn [MetadataPreservingChunker.find_sections].
  assert (E : header_at (c :: rest) = None).
  { unfold header_at. simpl. now rewrite Hc. }
  rewrite E. destruct ls; now apply IH.
Qed.

(** X22.  For a text without the character '#', every entry returned by
    [chunk_with_metadata] has an empty section and an empty subsection. *)
Theorem chunk_with_metadata_without_headers (self : MetadataPreservingChunker.t)
        (text doc_title : str) :
  Forall (fun c => is_hash c = false) text ->
  Forall
    (fun e =>
       Metadata.section (ChunkWithMetadata.metadata e) = []
       /\ Metadata.subsection (ChunkWithMetadata.metadata e) = [])
    (MetadataPreservingChunker.chunk_with_metadata self text doc_title).
Proof.
  intros Ht. unfold MetadataPreservingChunker.chunk_with_metadata.
  rewrite find_sections_no_hash by exact Ht.
  eapply Forall_impl; [|apply annotate_names; now left].
  cbn beta. intros e [[H1|(s1 & [] & _)] [H2|(s2 & [] & _)]]. now split.
Qed.

Lemma chunk_with_metadata_without_headers_witness :
  Forall (fun c => is_hash c = false) (py "One two. Three.")
  /\ Forall
       (fun e =>
          Metadata.section (ChunkWithMetadata.metadata e) = []
          /\ Metadata.subsection (ChunkWithMetadata.metadata e) = [])
       (MetadataPreservingChunker.chunk_with_metadata
          (MetadataPreservingChunker.init None) (py "One two. Three.") (py "T")).
Proof.
  assert (H : Forall (fun c => is_hash c = false) (py "One two. Three."))
    by (repeat constructor).
  split; [exact H|].
  exact (chunk_with_metadata_without_headers _ _ _ H).
Defined.

(** ** The headers found by the section pattern *)

Lemma run_length_all (p : char -> bool) (s : str) :
  forallb p (firstn (run_length p s) s) = true.
Proof. apply run_length_forallb. trivial. Qed.

Lemma run_length_le (p : char -> bool) (s : str) :
  (run_length p s <= length s)%nat.
Proof.
  induction s as [|c s IH]; simpl; [lia|]. destruct (p c); simpl; lia.
Qed.

Lemma header_title_spec (s : str) :
  forall j j' title,
    header_title j s = Some (j', title) ->
    (1 <= j' <= j)%nat
    /\ title <> []
    /\ forallb not_newline title = true
    /\ (j' + length title <= length s)%nat.
Proof.
  induction j as [|j IH]; intros j' title H; [discriminate|].
  cbn [header_title] in H.
  destruct (skipn (S j) s) as [|c r] eqn:E.
  - apply IH in H as (H1 & H2 & H3 & H4). repeat split; try assumption; lia.
  - destruct (not_newline c) eqn:Hc.
    + injection H as <- <-. split; [lia|]. split; [|split].
      * simpl. rewrite Hc. discriminate.
      * apply (run_length_all not_newline (c :: r)).
      * rewrite length_firstn.
        pose proof (run_length_le not_newline (c :: r)) as Hle.
        assert (Hs : length (c :: r) = (length s - S j)%nat)
          by (rewrite <- E; apply length_skipn).
        assert (length (c :: r) <> 0)%nat by (simpl; lia).
        lia.
    + apply IH in H as (H1 & H2 & H3 & H4). repeat split; try assumption; lia.
Qed.

Lemma split_ws_aux_first_word (hs : str) (w : char) (r : str) :
  forall acc,
    forallb (fun c => negb (isspace c)) hs = true -> isspace w = true ->
    hs <> [] ->
    exists rest, split_ws_aux acc (hs ++ w :: r) = (rev acc ++ hs) :: rest.
Proof.
  induction hs as [|h hs IH]; intros acc Hhs Hw Hne; [contradiction|].
  simpl in Hhs. apply andb_prop in Hhs as [Hh Hhs].
  apply negb_true_iff in Hh. cbn [app split_ws_aux]. rewrite Hh.
  destruct hs as [|h' hs'].
  - cbn [app split_ws_aux]. rewrite Hw. cbn [truthy]. eexists.
    simpl. reflexivity.
  - destruct (IH (h :: acc) Hhs Hw ltac:(discriminate)) as [rest ->].
    exists rest. simpl. now rewrite <- app_assoc.
Qed.

Lemma firstn_run_split (p : char -> bool) (s : str) :
  s = firstn (run_length p s) s ++ skipn (run_length p s) s.
Proof. symmetry. apply firstn_skipn. Qed.

Lemma header_at_spec (s : str) (n : nat) (title : str) :
  header_at s = Some (n, title) ->
  (1 <= run_length is_hash s)%nat
  /\ len (getitem (split_ws (firstn n s)) 0) = Z.of_nat (run_length is_hash s)
  /\ title <> []
  /\ forallb not_newline title = true
  /\ (1 <= n <= length s)%nat.
Proof.
  unfold header_at. intros H.
  destruct (run_length is_hash s) as [|h] eqn:Eh; [discriminate|].
  destruct (header_title _ _) as [[j t]|] eqn:Et; [|discriminate].
  injection H as <- <-.
  apply header_title_spec in Et as (Hj & Ht & Hnl & Hlen).
  rewrite length_skipn in Hlen.
  pose proof (run_length_le is_hash s) as Hle. rewrite Eh in Hle.
  split; [lia|]. split; [|split; [exact Ht|split; [exact Hnl|lia]]].
  set (hs := firstn (S h) s). set (s' := skipn (S h) s).
  assert (Hs : s = hs ++ s') by (symmetry; apply firstn_skipn).
  assert (Hhs : length hs = S h).
  { unfold hs. rewrite length_firstn. lia. }
  assert (Hhash : forallb is_hash hs = true).
  { unfold hs. rewrite <- Eh. apply run_length_all. }
  destruct s' as [|w r] eqn:Es'.
  { fold s' in Hj. rewrite Es' in Hj. simpl in Hj. lia. }
  assert (Hw : isspace w = true).
  { fold s' in Hj. rewrite Es' in Hj. simpl in Hj.
    destruct (isspace w); [reflexivity | lia]. }
  assert (Hfirst : firstn (S h + j + length t) s
                   = hs ++ w :: firstn (j + length t - 1) r).
  { rewrite Hs at 1. rewrite firstn_app, Hhs.
    rewrite (firstn_all2 (n := S h + j + length t)) by lia.
    f_equal.
    replace (S h + j + length t - S h)%nat
      with (S (j + length t - 1)) by lia.
    reflexivity. }
  change (firstn (S (h + j + length t)) s)
    with (firstn (S h + j + length t) s).
  rewrite Hfirst. unfold split_ws.
  destruct (split_ws_aux_first_word hs w (firstn (j + length t - 1) r) [])
    as [rest ->].
  - rewrite forallb_forall in *. intros c Hc. specialize (Hhash c Hc).
    unfold is_hash in Hhash. apply N.eqb_eq in Hhash. now subst c.
  - exact Hw.
  - intros E. rewrite E in Hhs. discriminate.
  - unfold getitem. simpl. unfold len. now rewrite Hhs.
Qed.

Lemma find_sections_spec :
  forall text pos line_start skip,
    Forall
      (fun s =>
         pos <= SectionDict.start s < pos + len text
         /\ 1 <= SectionDict.level s
         /\ SectionDict.level s
            = Z.of_nat (run_length is_hash
                          (skipn (Z.to_nat (SectionDict.start s - pos)) text))
         /\ SectionDict.title s <> []
         /\ forallb not_newline (SectionDict.title s) = true)
      (MetadataPreservingChunker.find_sections pos line_start skip text)
    /\ StronglySorted Z.lt
         (map SectionDict.start
              (MetadataPreservingChunker.find_sections pos line_start skip text)).
Proof.
  induction text as [|c rest IH]; intros pos ls skip;
    [split; constructor|].
  assert (Hlen : len (c :: rest) = len rest + 1)
    by (unfold len; simpl length; lia).
  assert (Hshift : forall ls' skip',
             Forall
               (fun s =>
                  pos <= SectionDict.start s < pos + len (c :: rest)
                  /\ 1 <= SectionDict.level s
                  /\ SectionDict.level s
                     = Z.of_nat
                         (run_length is_hash
                            (skipn (Z.to_nat (SectionDict.start s - pos))
                                   (c :: rest)))
                  /\ SectionDict.title s <> []
                  /\ forallb not_newline (SectionDict.title s) = true)
               (MetadataPreservingChunker.find_sections (pos + 1) ls' skip' rest)
             /\ Forall (fun s => pos < SectionDict.start s)
                  (MetadataPreservingChunker.find_sections (pos + 1) ls' skip'
                     rest)).
  { intros ls' skip'. destruct (IH (pos + 1) ls' skip') as [H _].
    split; (eapply Forall_impl; [|exact H]); cbn beta;
      intros s (Hs & Hl & Hh & Ht & Hn); [|lia].
    repeat split; try assumption; try lia.
    replace (Z.to_nat (SectionDict.start s - pos))
      with (S (Z.to_nat (SectionDict.start s - (pos + 1)))) by lia.
    exact Hh. }
  cbn [MetadataPreservingChunker.find_sections].
  destruct skip as [|k].
  - destruct (if ls then header_at (c :: rest) else None) as [[n t]|] eqn:E.
    + destruct ls; [|discriminate].
      apply header_at_spec in E as (Hh & Hlv & Ht & Hnl & Hn).
      destruct (Hshift (c =? 10)%N (n - 1)%nat) as [Hall Hgt].
      destruct (IH (pos + 1) (c =? 10)%N (n - 1)%nat) as [_ Hsorted].
      split.
      * constructor; [|exact Hall].
        cbn [SectionDict.start SectionDict.level SectionDict.title].
        rewrite Z.sub_diag. cbn [Z.to_nat skipn].
        pose proof (len_nonneg rest).
        repeat split; try assumption; lia.
      * cbn [map SectionDict.start]. constructor; [exact Hsorted|].
        apply Forall_forall. intros x Hx.
        apply in_map_iff in Hx as (s & <- & Hs).
        rewrite Forall_forall in Hgt. now apply Hgt.
    + destruct (Hshift (c =? 10)%N O) as [Hall _].
      destruct (IH (pos + 1) (c =? 10)%N O) as [_ Hsorted]. now split.
  - destruct (Hshift (c =? 10)%N k) as [Hall _].
    destruct (IH (pos + 1) (c =? 10)%N k) as [_ Hsorted]. now split.
Qed.

(** X23.  Every header that [chunk_with_metadata] finds with its section
    pattern lies inside the text at a run of '#' characters whose length is
    the header's level (at least 1), and has a non-empty title without
    newline; the headers are found in strictly increasing order of their
    offsets. *)
Theorem find_sections_headers (text : str) :
  let sections := MetadataPreservingChunker.find_sections 0 true O text in
  Forall
    (fun s =>
       0 <= SectionDict.start s < len text
       /\ 1 <= SectionDict.level s
       /\ SectionDict.level s
          = Z.of_nat (run_length is_hash
                        (skipn (Z.to_nat (SectionDict.start s)) text))
       /\ SectionDict.title s <> []
       /\ forallb not_newline (SectionDict.title s) = true)
    sections
  /\ StronglySorted Z.lt (map SectionDict.start sections).
Proof.
  intros sections. destruct (find_sections_spec text 0 true O) as [H1 H2].
  split; [|exact H2].
  eapply Forall_impl; [|exact H1]. cbn beta.
  intros s (Hs & Hl & Hh & Ht & Hn). rewrite Z.sub_0_r in Hh.
  repeat split; try assumption; lia.
Qed.

(** ** Sentences are never cut *)

Lemma lstrip_decomp (s : str) : exists l, s = l ++ lstrip s.
Proof.
  induction s as [|c s [l IH]]; [now exists []|]. simpl.
  destruct (isspace c); [|now exists []].
  exists (c :: l). simpl. now rewrite <- IH.
Qed.

Lemma strip_decomp (s : str) : exists l r, s = l ++ strip s ++ r.
Proof.
  destruct (lstrip_decomp s) as [l Hl].
  destruct (lstrip_decomp (rev (lstrip s))) as [r Hr].
  exists l, (rev r). unfold strip, rstrip.
  rewrite <- rev_app_distr, <- Hr, rev_involutive. exact Hl.
Qed.

Lemma strip_around (a m b : str) :
  edged m -> strip (a ++ m ++ b) = lstrip a ++ m ++ rstrip b.
Proof.
  intros [Hh Hl]. unfold strip.
  destruct m as [|x m1]; [contradiction|].
  assert (E1 : lstrip (a ++ (x :: m1) ++ b) = lstrip a ++ (x :: m1) ++ b).
  { cbn [app]. now apply lstrip_app_keep. }
  rewrite E1. unfold rstrip.
  rewrite !rev_app_distr, <- app_assoc.
  destruct (rev (x :: m1)) as [|y m2] eqn:Em; [contradiction|].
  cbn [app]. rewrite lstrip_app_keep by exact Hl.
  rewrite rev_app_distr.
  change (y :: m2 ++ rev (lstrip a)) with ((y :: m2) ++ rev (lstrip a)).
  rewrite rev_app_distr, rev_involutive, <- Em, rev_involutive.
  now rewrite <- app_assoc.
Qed.

Lemma infix_strip (cur s a b : str) :
  remove_ws s <> [] -> cur = a ++ s ++ b ->
  exists a' b', strip cur = a' ++ strip s ++ b'.
Proof.
  intros Hs ->. destruct (strip_decomp s) as (l & r & Hlr).
  assert (Hedged : edged (strip s)).
  { apply strip_edged. intros E. apply Hs. now rewrite <- remove_ws_strip, E. }
  exists (lstrip (a ++ l)), (rstrip (r ++ b)).
  rewrite <- (strip_around _ _ _ Hedged). f_equal.
  rewrite Hlr at 1. now rewrite <- !app_assoc.
Qed.

Lemma sentence_step_keeps self (done : list str) st s0 :
  let held st s :=
    (exists c a b, In c (fst st) /\ c = a ++ strip s ++ b)
    \/ (exists a b, snd st = a ++ s ++ b) in
  (forall s, In s done -> remove_ws s <> [] -> held st s) ->
  forall s, In s (s0 :: done) -> remove_ws s <> [] ->
            held (SentenceAwareChunker.step self st s0) s.
Proof.
  intros held Hdone s Hin Hs. destruct st as [chunks cur].
  assert (Hflushed : forall x,
             In x done -> remove_ws x <> [] ->
             exists c a b, In c (chunks ++ [strip cur]) /\ c = a ++ strip x ++ b).
  { intros x Hx Hnw. destruct (Hdone x Hx Hnw) as [(c & a & b & Hc & E)|(a & b & E)].
    - exists c, a, b. split; [apply in_or_app; now left | exact E].
    - cbn [snd] in E. destruct (infix_strip cur x a b Hnw E) as (a' & b' & E').
      exists (strip cur), a', b'. split; [|exact E'].
      apply in_or_app. right. now left. }
  assert (Hjoined : forall x,
             In x (s0 :: done) -> remove_ws x <> [] ->
             held (chunks, cur ++ py " " ++ s0) x).
  { intros x [<-|Hx] Hnw.
    - right. exists (cur ++ py " "), []. cbn [snd].
      now rewrite app_nil_r, <- app_assoc.
    - destruct (Hdone x Hx Hnw) as [H|(a & b & E)]; [now left|].
      right. cbn [snd] in *. exists a, (b ++ py " " ++ s0).
      rewrite E. now rewrite <- !app_assoc. }
  assert (Hfresh : forall chunks', held (chunks', s0) s0).
  { intros chunks'. right. exists [], []. cbn [snd app]. now rewrite app_nil_r. }
  assert (Hnone : cur = [] -> forall x,
             In x done -> remove_ws x <> [] ->
             exists c a b, In c chunks /\ c = a ++ strip x ++ b).
  { intros -> x Hx Hnw.
    destruct (Hdone x Hx Hnw) as [H|(a & b & E)]; [exact H|].
    cbn [snd] in E. symmetry in E.
    apply app_eq_nil in E as [_ E]. apply app_eq_nil in E as [E _].
    subst x. now rewrite remove_ws_nil in Hnw. }
  unfold SentenceAwareChunker.step.
  destruct cur as [|c cur]; cbn [truthy]; rewrite ?andb_false_r, ?andb_true_r.
  - destruct (_ <=? _).
    + destruct Hin as [<-|Hin]; [apply Hfresh|].
      left. now apply Hnone.
    + destruct (_ <=? _).
      * now apply Hjoined.
      * destruct Hin as [<-|Hin]; [apply Hfresh|].
        left. now apply Hnone.
  - destruct (_ >? _).
    + destruct Hin as [<-|Hin]; [apply Hfresh|].
      left. now apply Hflushed.
    + destruct (_ <=? _); [now apply Hjoined|].
      destruct (_ <=? _); [now apply Hjoined|].
      destruct Hin as [<-|Hin]; [apply Hfresh|].
      left. now apply Hflushed.
Qed.

Lemma sentence_fold_keeps self (ss : list str) :
  forall (done : list str) st,
    (forall s, In s done -> remove_ws s <> [] ->
               (exists c a b, In c (fst st) /\ c = a ++ strip s ++ b)
               \/ (exists a b, snd st = a ++ s ++ b)) ->
    forall s, In s (ss ++ done) -> remove_ws s <> [] ->
      (exists c a b,
          In c (fst (fold_left (SentenceAwareChunker.step self) ss st))
          /\ c = a ++ strip s ++ b)
      \/ (exists a b,
             snd (fold_left (SentenceAwareChunker.step self) ss st)
             = a ++ s ++ b).
Proof.
  induction ss as [|s0 ss IH]; intros done st Hdone s Hin Hs; cbn [fold_left].
  - now apply Hdone.
  - apply (IH (s0 :: done)); [|now apply in_app_or in Hin as [[<-|H]|H];
                                 apply in_or_app; simpl; auto | exact Hs].
    apply (sentence_step_keeps self done st s0 Hdone).
Qed.

(** X24.  [SentenceAwareChunker.chunk] never cuts a sentence: every sentence
    of the text that has a non-whitespace character is found whole, trimmed,
    inside one of the returned chunks. *)
Theorem sentences_are_kept_whole (self : SentenceAwareChunker.t)
        (text s : str) :
  In s (re_split sentence_boundary text) ->
  (exists c, In c s /\ isspace c = false) ->
  exists chunk a b,
    In chunk (SentenceAwareChunker.chunk self text)
    /\ chunk = a ++ strip s ++ b.
Proof.
  intros Hin Hs. apply remove_ws_not_nil in Hs.
  unfold SentenceAwareChunker.chunk.
  pose proof (sentence_fold_keeps self (re_split sentence_boundary text) []
                ([], [])) as H.
  specialize (H ltac:(intros x []) s ltac:(now rewrite app_nil_r) Hs).
  destruct (fold_left _ _ _) as [chunks cur]. cbn [fst snd] in H.
  destruct H as [(c & a & b & Hc & E)|(a & b & E)].
  - exists c, a, b. split; [|exact E].
    destruct (truthy cur); [apply in_or_app; now left | exact Hc].
  - destruct (infix_strip cur s a b Hs E) as (a' & b' & E').
    exists (strip cur), a', b'. split; [|exact E'].
    destruct cur as [|x cur]; cbn [truthy].
    + symmetry in E. apply app_eq_nil in E as [_ E].
      apply app_eq_nil in E as [E _]. subst s.
      now rewrite remove_ws_nil in Hs.
    + apply in_or_app. right. now left.
Qed.

Lemma sentences_are_kept_whole_witness :
  In (py "Two.") (re_split sentence_boundary (py "One.  Two. Three."))
  /\ (exists c, In c (py "Two.") /\ isspace c = false)
  /\ exists chunk a b,
      In chunk (SentenceAwareChunker.chunk
                  (SentenceAwareChunker.init (Some 5) (Some 9))
                  (py "One.  Two. Three."))
      /\ chunk = a ++ strip (py "Two.") ++ b.
Proof.
  assert (H1 : In (py "Two.")
                  (re_split sentence_boundary (py "One.  Two. Three.")))
    by (right; left; reflexivity).
  assert (H2 : exists c, In c (py "Two.") /\ isspace c = false)
    by (exists 84%N; split; [left; reflexivity | reflexivity]).
  split; [exact H1|]. split; [exact H2|].
  exact (sentences_are_kept_whole _ _ _ H1 H2).
Defined.

(** ** Paragraphs that fit are never cut *)

Lemma paragraph_merge_keeps self (D : str -> Prop) st u :
  let held st x :=
    (exists c a b, In c (fst st) /\ c = a ++ x ++ b)
    \/ (exists a b, snd st = a ++ x ++ b) in
  (forall x, D x -> x <> [] -> held st x) ->
  forall x, D x \/ x = u -> x <> [] ->
            held (ParagraphAwareChunker.merge self st u) x.
Proof.
  intros held HD x Hx Hne. destruct st as [chunks cur].
  unfold ParagraphAwareChunker.merge.
  assert (Hfresh : forall chunks', held (chunks', u) u).
  { intros chunks'. right. exists [], []. cbn [snd app]. now rewrite app_nil_r. }
  destruct cur as [|c cur]; cbn [truthy].
  - assert (Hnone : D x -> held (chunks, u) x).
    { intros Hd. destruct (HD x Hd Hne) as [H|(a & b & E)]; [now left|].
      cbn [snd] in E. symmetry in E.
      apply app_eq_nil in E as [_ E]. apply app_eq_nil in E as [E _].
      contradiction. }
    destruct (_ <=? _); (destruct Hx as [Hd| ->]; [now apply Hnone|apply Hfresh]).
  - destruct (_ <=? _).
    + destruct Hx as [Hd| ->].
      * destruct (HD x Hd Hne) as [H|(a & b & E)]; [now left|].
        right. cbn [snd] in *. exists a, (b ++ blank_line ++ u).
        rewrite E. now rewrite <- !app_assoc.
      * right. exists ((c :: cur) ++ blank_line), []. cbn [snd].
        now rewrite app_nil_r, <- app_assoc.
    + destruct Hx as [Hd| ->]; [|apply Hfresh].
      left. destruct (HD x Hd Hne) as [(k & a & b & Hk & E)|(a & b & E)].
      * exists k, a, b. split; [apply in_or_app; now left | exact E].
      * exists (c :: cur), a, b. split; [|exact E].
        apply in_or_app. right. now left.
Qed.

Lemma paragraph_merge_fold_keeps self (D : str -> Prop) pcs :
  forall st,
    (forall x, D x -> x <> [] ->
               (exists c a b, In c (fst st) /\ c = a ++ x ++ b)
               \/ (exists a b, snd st = a ++ x ++ b)) ->
    forall x, D x -> x <> [] ->
      (exists c a b,
          In c (fst (fold_left (ParagraphAwareChunker.merge self) pcs st))
          /\ c = a ++ x ++ b)
      \/ (exists a b,
             snd (fold_left (ParagraphAwareChunker.merge self) pcs st)
             = a ++ x ++ b).
Proof.
  induction pcs as [|pc pcs IH]; intros st HD x Hx Hne; cbn [fold_left].
  - now apply HD.
  - apply IH; [|exact Hx|exact Hne].
    intros y Hy Hyne.
    apply (paragraph_merge_keeps self D st pc HD y (or_introl Hy) Hyne).
Qed.

Lemma paragraph_step_keeps self (D : str -> Prop) st p :
  (forall x, D x -> x <> [] ->
             (exists c a b, In c (fst st) /\ c = a ++ x ++ b)
             \/ (exists a b, snd st = a ++ x ++ b)) ->
  forall x,
    D x \/ (x = strip p /\ len x <= ParagraphAwareChunker.target_size self) ->
    x <> [] ->
    (exists c a b,
        In c (fst (ParagraphAwareChunker.step self st p)) /\ c = a ++ x ++ b)
    \/ (exists a b, snd (ParagraphAwareChunker.step self st p) = a ++ x ++ b).
Proof.
  intros HD x Hx Hne. unfold ParagraphAwareChunker.step.
  destruct (strip p) as [|c q] eqn:E; cbn [truthy negb].
  - destruct Hx as [Hd|[-> _]]; [now apply HD | contradiction].
  - destruct st as [chunks cur].
    destruct (Z.gtb_spec (len (c :: q)) (ParagraphAwareChunker.target_size self)).
    + destruct Hx as [Hd|[-> Hlen]]; [|lia].
      now apply (paragraph_merge_fold_keeps self D).
    + apply (paragraph_merge_keeps self D (chunks, cur) (c :: q) HD x);
        [|exact Hne].
      destruct Hx as [Hd|[-> _]]; [now left | now right].
Qed.

Lemma paragraph_fold_keeps self ps :
  forall (D : str -> Prop) st,
    (forall x, D x -> x <> [] ->
               (exists c a b, In c (fst st) /\ c = a ++ x ++ b)
               \/ (exists a b, snd st = a ++ x ++ b)) ->
    forall x,
      D x \/ (exists p, In p ps /\ x = strip p
                        /\ len x <= ParagraphAwareChunker.target_size self) ->
      x <> [] ->
      (exists c a b,
          In c (fst (fold_left (ParagraphAwareChunker.step self) ps st))
          /\ c = a ++ x ++ b)
      \/ (exists a b,
             snd (fold_left (ParagraphAwareChunker.step self) ps st)
             = a ++ x ++ b).
Proof.
  induction ps as [|p ps IH]; intros D st HD x Hx Hne; cbn [fold_left].
  - destruct Hx as [Hd|(q & [] & _)]. now apply HD.
  - apply (IH (fun y => D y \/ (y = strip p
                                /\ len y <= ParagraphAwareChunker.target_size self)));
      [|  |exact Hne].
    + intros y Hy Hyne. now apply (paragraph_step_keeps self D).
    + destruct Hx as [Hd|(q & [<-|Hq] & Hx & Hlen)].
      * left. now left.
      * left. right. now split.
      * right. now exists q.
Qed.

(** X25.  [ParagraphAwareChunker.chunk] never cuts a paragraph that fits: a
    paragraph of the text that is non-empty once trimmed and has at most
    [target_size] characters is found whole, trimmed, inside one of the
    returned chunks. *)
Theorem paragraphs_are_kept_whole (self : ParagraphAwareChunker.t)
        (text p : str) :
  In p (re_split paragraph_break text) ->
  strip p <> [] ->
  len (strip p) <= ParagraphAwareChunker.target_size self ->
  exists chunk a b,
    In chunk (ParagraphAwareChunker.chunk self text)
    /\ chunk = a ++ strip p ++ b.
Proof.
  intros Hin Hne Hlen. unfold ParagraphAwareChunker.chunk.
  pose proof (paragraph_fold_keeps self (re_split paragraph_break text)
                (fun _ => False) ([], [])) as H.
  specialize (H ltac:(intros x []) (strip p)
                ltac:(right; exists p; repeat split; assumption) Hne).
  destruct (fold_left _ _ _) as [chunks cur]. cbn [fst snd] in H.
  destruct H as [(c & a & b & Hc & E)|(a & b & E)].
  - exists c, a, b. split; [|exact E].
    destruct (truthy cur); [apply in_or_app; now left | exact Hc].
  - exists cur, a, b. split; [|exact E].
    destruct cur as [|x cur]; cbn [truthy].
    + symmetry in E. apply app_eq_nil in E as [_ E].
      apply app_eq_nil in E as [E _]. contradiction.
    + apply in_or_app. right. now left.
Qed.

Lemma paragraphs_are_kept_whole_witness :
  In [32; 66; 46; 10]%N
     (re_split paragraph_break [65; 46; 10; 10; 10; 32; 66; 46; 10]%N)
  /\ strip [32; 66; 46; 10]%N <> []
  /\ len (strip [32; 66; 46; 10]%N)
     <= ParagraphAwareChunker.target_size (ParagraphAwareChunker.init (Some 3))
  /\ exists chunk a b,
      In chunk (ParagraphAwareChunker.chunk
                  (ParagraphAwareChunker.init (Some 3))
                  [65; 46; 10; 10; 10; 32; 66; 46; 10]%N)
      /\ chunk = a ++ strip [32; 66; 46; 10]%N ++ b.
Proof.
  assert (H1 : In [32; 66; 46; 10]%N
                  (re_split paragraph_break
                     [65; 46; 10; 10; 10; 32; 66; 46; 10]%N))
    by (right; left; reflexivity).
  assert (H2 : strip [32; 66; 46; 10]%N <> []) by (vm_compute; discriminate).
  assert (H3 : len (strip [32; 66; 46; 10]%N)
               <= ParagraphAwareChunker.target_size
                    (ParagraphAwareChunker.init (Some 3)))
    by (vm_compute; discriminate).
  split; [exact H1|]. split; [exact H2|]. split; [exact H3|].
  exact (paragraphs_are_kept_whole _ _ _ H1 H2 H3).
Defined.
